(** * gdoc-comments-md: document transformer and pagination

    A shallow embedding of
      - [src/lib/utils/pagination.ts]   (estimatePages, filterByPageRange,
                                         filterAndRenumberThreads)
      - [src/lib/services/transformer.ts] (extractTextContent, insertAnchors,
                                         formatCommentThread,
                                         transformToMarkdown,
                                         convertDriveComments)
      - [src/lib/utils/url.ts]          (extractDocumentId)
      - [src/lib/utils/time.ts]         (formatRelativeTime)
      - [src/lib/stores/history.svelte.ts] (addEntry, removeEntry,
                                         clearHistory, restoreHistory,
                                         getEntryByDocId)
      - [src/lib/stores/auth.svelte.ts] (setAuth, clearAuth, restoreAuth,
                                         isTokenExpired, getAccessToken)
    together with the properties the specification states about them and
    further properties of the code.

    Conventions.
      - A JavaScript string is a [string]: a sequence of code units, here
        the 8-bit ones.  [String.length] is the JS [.length].
      - Loop counters, array indices, page numbers and character counts are
        [nat]; numbers handed in by a caller (startPage, pageCount,
        charsPerPage) are [Z], so that zero and negative values exist.
      - An optional field or parameter is an [option]; a field read only for
        its truthiness is tested through [truthy_*].
      - Only the fields the functions read are kept in the records.
      - The clock ([Date.now()]) is an argument; [localStorage] is a field
        of the state of a store, with [JSON.stringify] and [JSON.parse] as
        parameters. *)

From Stdlib Require Import Ascii String DecimalString.
From Stdlib Require Import ZArith Lia Bool Arith List.
From Stdlib Require DecimalNat DecimalFacts Finite Permutation Sorted.
Import ListNotations.

Local Open Scope string_scope.
Local Open Scope list_scope.
Local Open Scope nat_scope.

(** String concatenation, kept apart from list append. *)
Local Infix "+++" := String.append (right associativity, at level 60).

(* ===================================================================== *)
(** ** The JavaScript string operations the sources use *)
(* ===================================================================== *)

Module JsString.

Definition newline : ascii := ascii_of_nat 10.
Definition NL : string := String newline EmptyString.

(** Code units that [trim], [trimEnd] and [\s] strip: TAB, LF, VT, FF, CR,
    SPACE and NBSP (the white space and line terminators below 256). *)
Definition is_whitespace (c : ascii) : bool :=
  match N_of_ascii c with
  | 9%N | 10%N | 11%N | 12%N | 13%N | 32%N | 160%N => true
  | _ => false
  end.

(** [s.trimEnd()] *)
Fixpoint trimEnd (s : string) : string :=
  match s with
  | EmptyString => EmptyString
  | String c rest =>
      match trimEnd rest with
      | EmptyString => if is_whitespace c then EmptyString else String c EmptyString
      | kept => String c kept
      end
  end.

(** [s.trimStart()] *)
Fixpoint trimStart (s : string) : string :=
  match s with
  | EmptyString => EmptyString
  | String c rest => if is_whitespace c then trimStart rest else s
  end.

(** [s.trim()] *)
Definition trim (s : string) : string := trimStart (trimEnd s).

(** [s.startsWith(t)] *)
Definition startsWith (s t : string) : bool := String.prefix t s.

(** [s.includes(t)] *)
Fixpoint includes (s t : string) : bool :=
  if String.prefix t s then true
  else match s with
       | EmptyString => false
       | String _ rest => includes rest t
       end.

(** [s.repeat(n)] *)
Fixpoint repeat (s : string) (n : nat) : string :=
  match n with
  | O => EmptyString
  | S k => s +++ repeat s k
  end.

(** [s.slice(n)] *)
Fixpoint drop (n : nat) (s : string) : string :=
  match n, s with
  | O, _ => s
  | S k, EmptyString => EmptyString
  | S k, String _ rest => drop k rest
  end.

(** [parts.join(sep)] *)
Definition join (sep : string) (parts : list string) : string :=
  String.concat sep parts.

(** [s.split('\n')]: always at least one piece. *)
Fixpoint split_lines (s : string) : list string :=
  match s with
  | EmptyString => [EmptyString]
  | String c rest =>
      if Ascii.eqb c newline then EmptyString :: split_lines rest
      else match split_lines rest with
           | [] => [String c EmptyString]
           | piece :: pieces => String c piece :: pieces
           end
  end.

(** The leftmost occurrence of the literal [pat] in [s] is replaced by
    [rep]; [s] is returned as it is when [pat] does not occur. *)
Fixpoint replace_first (pat rep s : string) : string :=
  if String.prefix pat s then rep +++ drop (String.length pat) s
  else match s with
       | EmptyString => EmptyString
       | String c rest => String c (replace_first pat rep rest)
       end.

(** [s.replace(/\n$/, '')]: one newline at the very end is removed. *)
Fixpoint strip_final_newline (s : string) : string :=
  match s with
  | EmptyString => EmptyString
  | String c rest =>
      match rest with
      | EmptyString => if Ascii.eqb c newline then EmptyString else s
      | String _ _ => String c (strip_final_newline rest)
      end
  end.

(** [s.replace(/\n{3,}/g, '\n\n')]: [run] counts the newlines of the run
    being read; a run of three or more is written back as two. *)
Fixpoint collapse_newlines (run : nat) (s : string) : string :=
  match s with
  | EmptyString => repeat NL (Nat.min run 2)
  | String c rest =>
      if Ascii.eqb c newline then collapse_newlines (S run) rest
      else repeat NL (Nat.min run 2) +++ String c (collapse_newlines 0 rest)
  end.

(** A JS string is truthy when it is not empty. *)
Definition truthy (s : string) : bool :=
  match s with EmptyString => false | String _ _ => true end.

(** [`${n}`] for a non-negative integer. *)
Definition of_nat (n : nat) : string := NilZero.string_of_uint (Nat.to_uint n).

End JsString.

(* ===================================================================== *)
(** ** Data model: [src/lib/types/google.ts] *)
(* ===================================================================== *)

Record Link := { url : option string }.

Record TextStyle := {
  bold : option bool;
  italic : option bool;
  link : option Link
}.

Record TextRun := {
  content : string;
  textStyle : option TextStyle
}.

Record PageBreak := { pb_textStyle : option TextStyle }.

Record ParagraphElement := {
  textRun : option TextRun;
  pageBreak : option PageBreak   (* [Some _]: the key is present *)
}.

Record ParagraphStyle := { namedStyleType : option string }.

Record Bullet := {
  listId : string;
  nestingLevel : option nat
}.

Record Paragraph := {
  p_elements : list ParagraphElement;       (* paragraph.elements *)
  paragraphStyle : option ParagraphStyle;
  bullet : option Bullet
}.

(** A structural element that is no paragraph (section break, table, table
    of contents) has [paragraph = None]. *)
Record StructuralElement := { paragraph : option Paragraph }.

Record NestingLevel := { glyphFormat : option string }.
Record ListProperties := { nestingLevels : list NestingLevel }.
Record DocList := { listProperties : option ListProperties }.

Record GoogleDocsDocument := {
  title : string;
  body_content : list StructuralElement;            (* doc.body.content *)
  lists : option (list (string * DocList))          (* Record<string, DocList> *)
}.

Record ThreadComment := {
  authorName : string;
  authorEmail : string;
  tc_content : string;
  isReply : bool
}.

Record CommentThread := {
  id : string;
  anchorId : string;
  quotedText : string;
  resolved : bool;
  comments : list ThreadComment
}.

Definition truthy_flag (b : option bool) : bool :=
  match b with Some true => true | _ => false end.

(** [`c${index + 1}`] *)
Definition anchor_of_index (index : nat) : string :=
  "c" +++ JsString.of_nat (index + 1).

(** [xs.map((x, index) => f x index)] *)
Fixpoint mapi_from {A B : Type} (f : A -> nat -> B) (index : nat) (xs : list A) : list B :=
  match xs with
  | [] => []
  | x :: rest => f x index :: mapi_from f (S index) rest
  end.

Definition mapi {A B : Type} (f : A -> nat -> B) (xs : list A) : list B :=
  mapi_from f 0 xs.

(* ===================================================================== *)
(** ** [src/lib/utils/pagination.ts] *)
(* ===================================================================== *)

Record PageBoundary := {
  pageNumber : nat;
  startElementIndex : nat;
  endElementIndex : nat;     (* exclusive *)
  charCount : nat
}.

Definition DEFAULT_CHARS_PER_PAGE : Z := 3000%Z.

(** A parameter with a default value. *)
Definition or_default (given : option Z) (default : Z) : Z :=
  match given with Some v => v | None => default end.

Definition hasPageBreak (element : StructuralElement) : bool :=
  match paragraph element with
  | None => false
  | Some p =>
      existsb (fun el => match pageBreak el with Some _ => true | None => false end)
              (p_elements p)
  end.

Definition getElementCharCount (element : StructuralElement) : nat :=
  match paragraph element with
  | None => 0
  | Some p =>
      fold_left
        (fun sum el =>
           match textRun el with
           | Some tr => sum + String.length (content tr)
           | None => sum
           end)
        (p_elements p) 0
  end.

(** The variables of the loop of [estimatePages]. *)
Record EstimateState := {
  pages : list PageBoundary;
  currentPageStart : nat;
  currentCharCount : nat;
  nextPageNumber : nat          (* the variable [pageNumber] *)
}.

Definition estimate_init : EstimateState :=
  {| pages := []; currentPageStart := 0; currentCharCount := 0; nextPageNumber := 1 |}.

(** One iteration of the loop, at index [i] on [element]. *)
Definition estimate_step (charsPerPage : Z) (st : EstimateState) (i : nat)
           (element : StructuralElement) : EstimateState :=
  if hasPageBreak element then
    if (currentPageStart st <? i) || (0 <? currentCharCount st) then
      {| pages := pages st ++
                  [{| pageNumber := nextPageNumber st;
                      startElementIndex := currentPageStart st;
                      endElementIndex := i;
                      charCount := currentCharCount st |}];
         currentPageStart := i + 1;
         currentCharCount := 0;
         nextPageNumber := nextPageNumber st + 1 |}
    else
      {| pages := pages st;
         currentPageStart := i + 1;
         currentCharCount := 0;
         nextPageNumber := nextPageNumber st |}
  else
    let charCount := getElementCharCount element in
    let total := currentCharCount st + charCount in
    if (charsPerPage <? Z.of_nat total)%Z && (currentPageStart st <? i) then
      {| pages := pages st ++
                  [{| pageNumber := nextPageNumber st;
                      startElementIndex := currentPageStart st;
                      endElementIndex := i;
                      charCount := total - charCount |}];
         currentPageStart := i;
         currentCharCount := charCount;
         nextPageNumber := nextPageNumber st + 1 |}
    else
      {| pages := pages st;
         currentPageStart := currentPageStart st;
         currentCharCount := total;
         nextPageNumber := nextPageNumber st |}.

(** [for (let i = ...; i < elements.length; i++)] over the elements that
    remain, [i] being the index of the first of them. *)
Fixpoint estimate_loop (charsPerPage : Z) (remaining : list StructuralElement)
         (i : nat) (st : EstimateState) : EstimateState :=
  match remaining with
  | [] => st
  | element :: rest =>
      estimate_loop charsPerPage rest (S i) (estimate_step charsPerPage st i element)
  end.

Definition estimatePages (elements : list StructuralElement)
           (charsPerPage : option Z) : list PageBoundary :=
  let charsPerPage := or_default charsPerPage DEFAULT_CHARS_PER_PAGE in
  match elements with
  | [] => [{| pageNumber := 1; startElementIndex := 0; endElementIndex := 0; charCount := 0 |}]
  | _ :: _ =>
      let st := estimate_loop charsPerPage elements 0 estimate_init in
      if (currentPageStart st <=? length elements - 1) || (length (pages st) =? 0) then
        pages st ++
        [{| pageNumber := nextPageNumber st;
            startElementIndex := currentPageStart st;
            endElementIndex := length elements;
            charCount := currentCharCount st |}]
      else pages st
  end.

Record FilterResult := {
  fr_elements : list StructuralElement;
  totalPages : nat;
  startPage : Z;
  endPage : Z
}.

(** [for (let i = page.startElementIndex; i < page.endElementIndex; i++)
       filteredElements.push(elements[i])].
    An index past the end of [elements] would push [undefined];
    [estimatePages_in_bounds] shows that no page has one. *)
Definition page_elements (elements : list StructuralElement) (page : PageBoundary)
  : list StructuralElement :=
  flat_map
    (fun i => match nth_error elements i with Some e => [e] | None => [] end)
    (seq (startElementIndex page) (endElementIndex page - startElementIndex page)).

Definition filterByPageRange (elements : list StructuralElement) (startPage : Z)
           (pageCount : option Z) (charsPerPage : option Z) : FilterResult :=
  let pages := estimatePages elements charsPerPage in
  let totalPages := length pages in
  let clampedStart := Z.min (Z.max 1 startPage) (Z.of_nat totalPages) in
  let endPage :=
    match pageCount with
    | None => Z.of_nat totalPages
    | Some pageCount => Z.min (clampedStart + pageCount - 1) (Z.of_nat totalPages)
    end in
  let selectedPages :=
    filter (fun p => (clampedStart <=? Z.of_nat (pageNumber p))%Z
                     && (Z.of_nat (pageNumber p) <=? endPage)%Z) pages in
  {| fr_elements := flat_map (page_elements elements) selectedPages;
     totalPages := totalPages;
     startPage := clampedStart;
     endPage := endPage |}.

Definition extractAllText (elements : list StructuralElement) : string :=
  JsString.join ""
    (map (fun el =>
            match paragraph el with
            | None => ""
            | Some p =>
                JsString.join ""
                  (map (fun pe => match textRun pe with
                                  | Some tr => content tr
                                  | None => ""
                                  end)
                       (p_elements p))
            end)
         elements).

(** [{ ...thread, anchorId: `c${index + 1}` }] *)
Definition renumbered (thread : CommentThread) (index : nat) : CommentThread :=
  {| id := id thread;
     anchorId := anchor_of_index index;
     quotedText := quotedText thread;
     resolved := resolved thread;
     comments := comments thread |}.

(** The predicate of the [filter] of [filterAndRenumberThreads]. *)
Definition quoted_in (fullText : string) (thread : CommentThread) : bool :=
  JsString.truthy (quotedText thread)
  && JsString.includes fullText (quotedText thread).

Definition filterAndRenumberThreads (threads : list CommentThread)
           (elements : list StructuralElement) : list CommentThread :=
  let fullText := extractAllText elements in
  let matching := filter (quoted_in fullText) threads in
  mapi renumbered matching.

(* ===================================================================== *)
(** ** [src/lib/services/transformer.ts] *)
(* ===================================================================== *)

(** An object used as a table with string keys. *)
Fixpoint lookup {A : Type} (key : string) (table : list (string * A)) : option A :=
  match table with
  | [] => None
  | (k, v) :: rest => if String.eqb k key then Some v else lookup key rest
  end.

(** The own keys of the object.  The code indexes a plain object, so a
    [namedStyleType] that names a property every object inherits
    ([constructor], [toString], ...) would find that property; the names
    the Docs API gives ([NORMAL_TEXT], [TITLE], [SUBTITLE], [HEADING_1] ..
    [HEADING_6]) are none of those, and only such names are meant here. *)
Definition HEADING_MAP : list (string * string) :=
  [ ("TITLE", "# ");
    ("SUBTITLE", "");
    ("HEADING_1", "## ");
    ("HEADING_2", "### ");
    ("HEADING_3", "#### ");
    ("HEADING_4", "##### ");
    ("HEADING_5", "###### ") ].

(** [style.link?.url] when it is truthy. *)
Definition link_url (style : TextStyle) : option string :=
  match link style with
  | None => None
  | Some l =>
      match url l with
      | None => None
      | Some u => if JsString.truthy u then Some u else None
      end
  end.

Definition applyTextStyle (text : string) (style : TextStyle) : string :=
  match link_url style with
  | Some u => "[" +++ text +++ "](" +++ u +++ ")"
  | None =>
      let text := if truthy_flag (italic style) then "_" +++ text +++ "_" else text in
      let text := if truthy_flag (bold style) then "**" +++ text +++ "**" else text in
      text
  end.

Definition extractTextContent (elements : list ParagraphElement) : string :=
  JsString.join ""
    (map (fun element =>
            match textRun element with
            | None => ""
            | Some run =>
                let text := content run in
                match textStyle run with
                | Some style => applyTextStyle text style
                | None => text
                end
            end)
         elements).

Definition getListPrefix (paragraph : Paragraph) (doc : GoogleDocsDocument) : string :=
  match bullet paragraph with
  | None => ""
  | Some bullet =>
      let nestingLevel := match nestingLevel bullet with Some n => n | None => 0 end in
      let padding := JsString.repeat "  " nestingLevel in
      let listDetails :=
        match lists doc with
        | Some table => lookup (listId bullet) table
        | None => None
        end in
      let levels :=
        match listDetails with
        | Some details =>
            match listProperties details with
            | Some props => nestingLevels props
            | None => []
            end
        | None => []
        end in
      let glyphFormat :=
        match nth_error levels nestingLevel with
        | Some level => match glyphFormat level with Some g => g | None => "" end
        | None => ""
        end in
      let isOrdered :=
        JsString.includes glyphFormat "%"
        && (JsString.includes glyphFormat "." || JsString.startsWith glyphFormat "[") in
      if isOrdered then padding +++ "1. " else padding +++ "- "
  end.

Definition formatCommentThread (thread : CommentThread) : string :=
  let anchorLabel :=
    if resolved thread then anchorId thread +++ " resolved" else anchorId thread in
  JsString.join (JsString.NL +++ ">" +++ JsString.NL)
    (map (fun comment =>
            let header :=
              "> [" +++ anchorLabel +++ "] **" +++ authorName comment
                    +++ "** (" +++ authorEmail comment +++ "):" in
            let content :=
              JsString.join JsString.NL
                (map (fun line => "> " +++ line)
                     (JsString.split_lines (tc_content comment))) in
            header +++ JsString.NL +++ content)
         (comments thread)).

(** [[...threads].sort((a, b) => b.quotedText.length - a.quotedText.length)]:
    a stable sort, longest quoted text first. *)
Fixpoint insert_by_length (thread : CommentThread) (sorted : list CommentThread)
  : list CommentThread :=
  match sorted with
  | [] => [thread]
  | other :: rest =>
      if String.length (quotedText thread) <? String.length (quotedText other)
      then other :: insert_by_length thread rest
      else thread :: sorted
  end.

Definition sort_longest_first (threads : list CommentThread) : list CommentThread :=
  fold_right insert_by_length [] threads.

(** The regular expression is the quoted text with every metacharacter
    escaped, so it matches that text literally; the callback rewrites the
    first match only. *)
Definition insertAnchors (text : string) (threads : list CommentThread) : string :=
  fold_left
    (fun result thread =>
       if JsString.truthy (quotedText thread) then
         JsString.replace_first (quotedText thread)
           ("[" +++ quotedText thread +++ "]^[" +++ anchorId thread +++ "]")
           result
       else result)
    (sort_longest_first threads) text.

(** The variables of the loop of [transformToMarkdown]. *)
Record TransformState := {
  lines : list string;
  prevWasList : bool
}.

Definition push (lines : list string) (line : string) : list string := lines ++ [line].

Definition is_title (el : StructuralElement) : bool :=
  match paragraph el with
  | Some p =>
      match paragraphStyle p with
      | Some ps =>
          match namedStyleType ps with
          | Some name => String.eqb name "TITLE"
          | None => false
          end
      | None => false
      end
  | None => false
  end.

(** One iteration of the loop over [doc.body.content]. *)
Definition transform_step (doc : GoogleDocsDocument) (threads : list CommentThread)
           (st : TransformState) (element : StructuralElement) : TransformState :=
  match paragraph element with
  | None => st
  | Some paragraph =>
      let styleType :=
        match paragraphStyle paragraph with
        | Some ps => namedStyleType ps
        | None => None
        end in
      let isList := match bullet paragraph with Some _ => true | None => false end in
      let rawText := extractTextContent (p_elements paragraph) in
      if negb (JsString.truthy (JsString.trim rawText)) then
        {| lines := if prevWasList st then lines st else push (lines st) "";
           prevWasList := false |}
      else
        let textContent := JsString.strip_final_newline rawText in
        let lines1 :=
          if isList && negb (prevWasList st) && (0 <? length (lines st))
          then if JsString.truthy (last (lines st) "")
               then push (lines st) "" else lines st
          else lines st in
        let line :=
          if isList then getListPrefix paragraph doc +++ textContent
          else
            match styleType with
            | Some name =>
                if String.eqb name "SUBTITLE" then "_" +++ JsString.trim textContent +++ "_"
                else
                  match lookup name HEADING_MAP with
                  | Some prefix =>
                      if JsString.truthy prefix then prefix +++ textContent else textContent
                  | None => textContent
                  end
            | None => textContent
            end in
        let matchingThreads :=
          filter (fun thread => JsString.truthy (quotedText thread)
                                && JsString.includes textContent (quotedText thread))
                 threads in
        let line :=
          if 0 <? length matchingThreads then insertAnchors line matchingThreads else line in
        let lines2 := if negb isList && prevWasList st then push lines1 "" else lines1 in
        let lines3 := push lines2 (JsString.trimEnd line) in
        let withThreads :=
          if 0 <? length matchingThreads
          then push lines3 "" ++ map formatCommentThread matchingThreads
          else lines3 in
        {| lines := if negb isList then push withThreads "" else withThreads;
           prevWasList := isList |}
  end.

Definition transformToMarkdown (doc : GoogleDocsDocument) (threads : list CommentThread)
  : string :=
  let hasTitleParagraph := existsb is_title (body_content doc) in
  let lines0 := if negb hasTitleParagraph then ["# " +++ title doc; ""] else [] in
  let st := fold_left (transform_step doc threads) (body_content doc)
                      {| lines := lines0; prevWasList := false |} in
  let result := JsString.join JsString.NL (lines st) in
  let result := JsString.collapse_newlines 0 result in
  JsString.trimEnd result +++ JsString.NL.

(** *** Drive API comments *)

Record CommentAuthor := {
  displayName : string;
  emailAddress : option string
}.

Record QuotedFileContent := { value : string }.

Record CommentReply := {
  reply_content : string;
  reply_author : CommentAuthor
}.

Record DriveComment := {
  dc_id : string;
  dc_content : string;
  dc_resolved : bool;
  quotedFileContent : option QuotedFileContent;
  dc_author : CommentAuthor;
  replies : list CommentReply
}.

Definition string_or_empty (s : option string) : string :=
  match s with Some v => v | None => "" end.

(** The predicate of the [filter] of [convertDriveComments]. *)
Definition drive_comment_kept (comment : DriveComment) : bool :=
  negb (dc_resolved comment)
  || match quotedFileContent comment with Some _ => true | None => false end.

(** The callback of the [map] of [convertDriveComments]. *)
Definition thread_of_comment (comment : DriveComment) (index : nat) : CommentThread :=
  {| id := dc_id comment;
     anchorId := anchor_of_index index;
     quotedText :=
       match quotedFileContent comment with
       | Some q => value q          (* [value || ''] *)
       | None => ""
       end;
     resolved := dc_resolved comment;
     comments :=
       {| authorName := displayName (dc_author comment);
          authorEmail := string_or_empty (emailAddress (dc_author comment));
          tc_content := dc_content comment;
          isReply := false |}
       :: map (fun reply =>
                 {| authorName := displayName (reply_author reply);
                    authorEmail := string_or_empty (emailAddress (reply_author reply));
                    tc_content := reply_content reply;
                    isReply := true |})
              (replies comment) |}.

Definition convertDriveComments (comments : list DriveComment) : list CommentThread :=
  mapi thread_of_comment (filter drive_comment_kept comments).

(** *** The page-filtered entry point *)

Record PageFilterOptions := {
  opt_startPage : option Z;
  opt_pageCount : option Z;
  opt_charsPerPage : option Z
}.

Record TransformResult := {
  markdown : string;
  result_totalPages : nat;
  pageRange : option (Z * Z);
  commentCount : nat
}.

(** Modelled from the spec: [transformWithPageFilter] is exported by
    [src/lib/services/transformer.ts] in the tests and in the convert page,
    but its body is not among the sources.  Section 4.9: it composes the
    Page Filter, the Thread Filter/Renumberer and the Document Transformer;
    with no page options it is the Document Transformer on the whole
    document, with [totalPages] from the Page Estimator and a null page
    range; with page options it returns the filtered markdown, [totalPages],
    the resolved page range and the number of threads that survived.
    [startPage] defaults to 1 (section 6). *)
Definition transformWithPageFilter (doc : GoogleDocsDocument)
           (threads : list CommentThread) (options : option PageFilterOptions)
  : TransformResult :=
  let charsPerPage := match options with Some o => opt_charsPerPage o | None => None end in
  let givenStart := match options with Some o => opt_startPage o | None => None end in
  let givenCount := match options with Some o => opt_pageCount o | None => None end in
  match givenStart, givenCount with
  | None, None =>
      {| markdown := transformToMarkdown doc threads;
         result_totalPages := length (estimatePages (body_content doc) charsPerPage);
         pageRange := None;
         commentCount :=
           length (filter (fun t => JsString.truthy (quotedText t)) threads) |}
  | _, _ =>
      let filtered :=
        filterByPageRange (body_content doc) (or_default givenStart 1%Z)
                          givenCount charsPerPage in
      let filteredThreads := filterAndRenumberThreads threads (fr_elements filtered) in
      let filteredDoc :=
        {| title := title doc;
           body_content := fr_elements filtered;
           lists := lists doc |} in
      {| markdown := transformToMarkdown filteredDoc filteredThreads;
         result_totalPages := totalPages filtered;
         pageRange := Some (startPage filtered, endPage filtered);
         commentCount := length filteredThreads |}
  end.

(* ===================================================================== *)
(** ** Vocabulary of the properties *)
(* ===================================================================== *)

(** Block index [i] lies in the half-open range of [page]. *)
Definition in_page (i : nat) (page : PageBoundary) : bool :=
  (startElementIndex page <=? i) && (i <? endElementIndex page).

(** The number of pages whose range holds block index [i]. *)
Definition pages_holding (i : nat) (pages : list PageBoundary) : nat :=
  length (filter (in_page i) pages).

(** Page numbers are 1, 2, ..., in list order. *)
Definition numbered_from_one (pages : list PageBoundary) : Prop :=
  map pageNumber pages = seq 1 (length pages).

(** An earlier page ends no later than a later page starts. *)
Definition ordered_pages (pages : list PageBoundary) : Prop :=
  forall a b pa pb,
    a < b ->
    nth_error pages a = Some pa ->
    nth_error pages b = Some pb ->
    endElementIndex pa <= startElementIndex pb.

(** The anchor identifiers c1, c2, ..., cN. *)
Definition contiguous_anchors (n : nat) : list string :=
  map anchor_of_index (seq 0 n).

(** What the loop of [estimatePages] maintains once the blocks [done] have
    been read. *)
Record estimate_inv (done : list StructuralElement) (st : EstimateState) : Prop := {
  inv_next : nextPageNumber st = length (pages st) + 1;
  inv_numbered : numbered_from_one (pages st);
  inv_ordered : ordered_pages (pages st);
  inv_start : currentPageStart st <= length done;
  inv_fresh : currentPageStart st = length done -> currentCharCount st = 0;
  inv_closed :
    Forall (fun p => startElementIndex p < endElementIndex p
                     /\ endElementIndex p <= currentPageStart st) (pages st);
  inv_open :
    forall j e, nth_error done j = Some e -> currentPageStart st <= j ->
                hasPageBreak e = false;
  inv_held :
    forall j e, nth_error done j = Some e -> j < currentPageStart st ->
                pages_holding j (pages st) = if hasPageBreak e then 0 else 1
}.

(** Every page but the last holds at least one block. *)
Definition closed_pages_nonempty (pages : list PageBoundary) : Prop :=
  forall a pa,
    nth_error pages a = Some pa ->
    S a < length pages ->
    startElementIndex pa < endElementIndex pa.

(** What [estimatePages] guarantees about its result on [elements]. *)
Record estimate_post (elements : list StructuralElement)
       (result : list PageBoundary) : Prop := {
  post_some : result <> [];
  post_numbered : numbered_from_one result;
  post_ordered : ordered_pages result;
  post_bounds :
    Forall (fun p => startElementIndex p <= endElementIndex p
                     /\ endElementIndex p <= length elements) result;
  post_nonempty : closed_pages_nonempty result;
  post_held :
    forall j e, nth_error elements j = Some e ->
                pages_holding j result = if hasPageBreak e then 0 else 1
}.

(* ===================================================================== *)
(** ** Sample inputs, after the helpers of the unit tests *)
(* ===================================================================== *)

(** A text run without style. *)
Definition text_span (text : string) : ParagraphElement :=
  {| textRun := Some {| content := text; textStyle := None |}; pageBreak := None |}.

(** A hard page break. *)
Definition break_span : ParagraphElement :=
  {| textRun := None; pageBreak := Some {| pb_textStyle := None |} |}.

Definition block_of (spans : list ParagraphElement) : StructuralElement :=
  {| paragraph :=
       Some {| p_elements := spans; paragraphStyle := None; bullet := None |} |}.

(** [makeElements]: one plain paragraph per text. *)
Definition text_block (text : string) : StructuralElement := block_of [text_span text].

(** The page-break paragraph of the test 'detects hard page breaks as
    forced boundaries'. *)
Definition page_break_block : StructuralElement := block_of [break_span].

(** [makeDoc]: a document titled 'Test Doc' of plain paragraphs. *)
Definition makeDoc (blocks : list StructuralElement) : GoogleDocsDocument :=
  {| title := "Test Doc"; body_content := blocks; lists := None |}.

(** An unresolved thread with one comment. *)
Definition makeThread (id anchorId quotedText author email text : string) : CommentThread :=
  {| id := id; anchorId := anchorId; quotedText := quotedText; resolved := false;
     comments := [{| authorName := author; authorEmail := email;
                     tc_content := text; isReply := false |}] |}.

(** Para, page break, para. *)
Definition break_example : list StructuralElement :=
  [text_block "Before break"; page_break_block; text_block "After break"].

(** [makeSixParas]: six paragraphs of 1000 characters. *)
Definition six_paragraphs : list StructuralElement :=
  map (fun label => text_block (label +++ JsString.repeat "x" 995))
      ["Para1"; "Para2"; "Para3"; "Para4"; "Para5"; "Para6"].

Definition six_paragraph_threads : list CommentThread :=
  [ makeThread "1" "c1" "Para1" "A" "a@t.com" "First";
    makeThread "2" "c2" "Para4" "B" "b@t.com" "Second";
    makeThread "3" "c3" "Para5" "C" "c@t.com" "Third" ].

(** Six paragraphs of 1000 characters, the fourth starting with a hard page
    break. *)
Definition six_paragraphs_with_break : list StructuralElement :=
  [ text_block ("Para1" +++ JsString.repeat "x" 995);
    text_block ("Para2" +++ JsString.repeat "x" 995);
    text_block ("Para3" +++ JsString.repeat "x" 995);
    block_of [break_span; text_span ("Para4" +++ JsString.repeat "x" 995)];
    text_block ("Para5" +++ JsString.repeat "x" 995);
    text_block ("Para6" +++ JsString.repeat "x" 995) ].

(** The blocks and threads of the test 'keeps threads whose quotedText
    appears in filtered elements'. *)
Definition greeting_blocks : list StructuralElement :=
  [text_block "Hello world"; text_block "Goodbye world"].

Definition greeting_threads : list CommentThread :=
  [ makeThread "1" "c1" "Hello" "Alice" "alice@test.com" "Comment";
    makeThread "2" "c2" "Goodbye" "Alice" "alice@test.com" "Comment" ].

(** A span with the given text and style. *)
Definition styled_span (text : string) (style : TextStyle) : ParagraphElement :=
  {| textRun := Some {| content := text; textStyle := Some style |};
     pageBreak := None |}.

(* ===================================================================== *)
(** ** The Text Renderer in the words of the specification (section 4.4) *)
(* ===================================================================== *)

(** One span: a link target wins over bold and italic; otherwise italic is
    the inner wrapper and bold the outer one. *)
Definition spec_render_span (span : ParagraphElement) : string :=
  match textRun span with
  | None => ""
  | Some run =>
      match textStyle run with
      | None => content run
      | Some style =>
          match link_url style with
          | Some target => "[" +++ content run +++ "](" +++ target +++ ")"
          | None =>
              match truthy_flag (bold style), truthy_flag (italic style) with
              | true, true => "**_" +++ content run +++ "_**"
              | true, false => "**" +++ content run +++ "**"
              | false, true => "_" +++ content run +++ "_"
              | false, false => content run
              end
          end
      end
  end.

(** The concatenation of the rendered spans. *)
Definition spec_render_spans (spans : list ParagraphElement) : string :=
  fold_right String.append "" (map spec_render_span spans).

(** Three Drive comments: unresolved without quote, resolved without
    quote, resolved with quote. *)
Definition drive_author : CommentAuthor :=
  {| displayName := "Alice"; emailAddress := Some "alice@test.com" |}.

Definition drive_comment (id : string) (isResolved : bool)
           (quoted : option string) : DriveComment :=
  {| dc_id := id; dc_content := "Comment"; dc_resolved := isResolved;
     quotedFileContent :=
       match quoted with Some q => Some {| value := q |} | None => None end;
     dc_author := drive_author; replies := [] |}.

Definition drive_comments : list DriveComment :=
  [ drive_comment "point" false None;
    drive_comment "stale" true None;
    drive_comment "done" true (Some "Hello") ].

(** The number of positions of [s] at which [pat] occurs. *)
Fixpoint occurrences (pat s : string) : nat :=
  (if String.prefix pat s then 1 else 0)
  + match s with
    | EmptyString => 0
    | String _ rest => occurrences pat rest
    end.

(** A markdown text given line by line, ending in a newline. *)
Definition markdown_of_lines (lines : list string) : string :=
  JsString.join JsString.NL lines +++ JsString.NL.

(** The test 'does not duplicate comment when quoted text appears in
    multiple paragraphs'. *)
Definition surrender_doc : GoogleDocsDocument :=
  makeDoc [ text_block "First paragraph mentions surrender here.";
            text_block "Second paragraph also says surrender again." ].

Definition surrender_threads : list CommentThread :=
  [ makeThread "1" "c1" "surrender" "Alice" "a@t.com" "What does this mean?" ].

(** The test 'numbers comments by document position, not API order'. *)
Definition word_doc : GoogleDocsDocument :=
  makeDoc [ text_block "First paragraph with wordA in it.";
            text_block "Second paragraph with wordB in it." ].

Definition word_threads : list CommentThread :=
  [ makeThread "api-first" "c1" "wordB" "Bob" "b@t.com" "On B";
    makeThread "api-second" "c2" "wordA" "Alice" "a@t.com" "On A" ].

(** A paragraph with a page break in the middle of its text. *)
Definition split_paragraph_doc : GoogleDocsDocument :=
  makeDoc [ block_of [text_span "Hello "; break_span; text_span "world"] ].

(** A point comment followed by an anchored one, as [convertDriveComments]
    numbers them. *)
Definition hello_doc : GoogleDocsDocument := makeDoc [ text_block "Hello world" ].

Definition point_then_anchored : list CommentThread :=
  [ makeThread "1" "c1" "" "Alice" "a@t.com" "A remark";
    makeThread "2" "c2" "Hello" "Bob" "b@t.com" "On Hello" ].

(** [transformWithPageFilter(doc, threads, { startPage: 1 })] *)
Definition from_first_page : option PageFilterOptions :=
  Some {| opt_startPage := Some 1%Z; opt_pageCount := None; opt_charsPerPage := None |}.

(* ===================================================================== *)
(** ** Further vocabulary of the pagination properties *)
(* ===================================================================== *)

(** The blocks that carry no hard page break, in document order. *)
Definition without_page_breaks (elements : list StructuralElement)
  : list StructuralElement :=
  filter (fun e => negb (hasPageBreak e)) elements.

(** The characters [getElementCharCount] counts in a run of blocks. *)
Definition block_chars (blocks : list StructuralElement) : nat :=
  list_sum (map getElementCharCount blocks).

(** [xs] is [ys] with some elements left out, the order kept. *)
Inductive subsequence {A : Type} : list A -> list A -> Prop :=
| subsequence_nil : subsequence [] []
| subsequence_skip : forall xs y ys, subsequence xs ys -> subsequence xs (y :: ys)
| subsequence_keep : forall x xs ys, subsequence xs ys -> subsequence (x :: xs) (x :: ys).

(** What the loop of [estimatePages] maintains about character counts and
    about the blocks it has put on pages, once the blocks [done] have been
    read. *)
Record estimate_counts (budget : Z) (done : list StructuralElement)
       (st : EstimateState) : Prop := {
  counts_pages :
    Forall (fun p => charCount p = block_chars (page_elements done p)) (pages st);
  counts_open :
    currentCharCount st = block_chars (skipn (currentPageStart st) done);
  budget_pages :
    Forall (fun p => (Z.of_nat (charCount p) <= budget)%Z
                     \/ endElementIndex p - startElementIndex p <= 1) (pages st);
  budget_open :
    (Z.of_nat (currentCharCount st) <= budget)%Z
    \/ length done - currentPageStart st <= 1;
  blocks_placed :
    flat_map (page_elements done) (pages st) ++ skipn (currentPageStart st) done
    = without_page_breaks done
}.

(* ===================================================================== *)
(** ** Further vocabulary of the transformer properties *)
(* ===================================================================== *)

(** Three newlines in a row. *)
Definition blank_run : string := JsString.NL +++ JsString.NL +++ JsString.NL.

(** No newline is the third of a run, [run] newlines having just been
    read. *)
Fixpoint runs_below_three (run : nat) (s : string) : bool :=
  match s with
  | EmptyString => true
  | String c rest =>
      if Ascii.eqb c JsString.newline
      then (S run <? 3) && runs_below_three (S run) rest
      else runs_below_three 0 rest
  end.

(** The text of a block as [transformToMarkdown] matches threads against
    it: the rendered spans without the final newline. *)
Definition block_text (element : StructuralElement) : option string :=
  match paragraph element with
  | Some p => Some (JsString.strip_final_newline (extractTextContent (p_elements p)))
  | None => None
  end.

(** The thread has a quoted text and some block of the document contains
    it. *)
Definition anchorable (doc : GoogleDocsDocument) (thread : CommentThread) : bool :=
  JsString.truthy (quotedText thread)
  && existsb (fun element =>
                match block_text element with
                | Some text => JsString.includes text (quotedText thread)
                | None => false
                end)
             (body_content doc).

Definition is_paragraph (element : StructuralElement) : bool :=
  match paragraph element with Some _ => true | None => false end.

(** The document without its tables, section breaks and tables of
    contents. *)
Definition paragraphs_only (doc : GoogleDocsDocument) : GoogleDocsDocument :=
  {| title := title doc;
     body_content := filter is_paragraph (body_content doc);
     lists := lists doc |}.

(** A table between two paragraphs. *)
Definition table_block : StructuralElement := {| paragraph := None |}.

(** The string has no newline in it. *)
Definition single_line (s : string) : bool := negb (JsString.includes s JsString.NL).

(** A thread with a reply and a comment of several lines. *)
Definition review_thread : CommentThread :=
  {| id := "1"; anchorId := "c1"; quotedText := "some text"; resolved := true;
     comments :=
       [ {| authorName := "Alice"; authorEmail := "alice@example.com";
            tc_content := "Line 1" +++ JsString.NL +++ "Line 2"; isReply := false |};
         {| authorName := "Bob"; authorEmail := ""; tc_content := "Reply here";
            isReply := true |} ] |}.

(** The header line [formatCommentThread] writes for a comment. *)
Definition comment_header (thread : CommentThread) (comment : ThreadComment) : string :=
  "> [" +++ (if resolved thread then anchorId thread +++ " resolved" else anchorId thread)
        +++ "] **" +++ authorName comment +++ "** (" +++ authorEmail comment +++ "):".

(** The anchor marker [insertAnchors] writes for a thread. *)
Definition anchor_marker (thread : CommentThread) : string :=
  "[" +++ quotedText thread +++ "]^[" +++ anchorId thread +++ "]".

(** The length of the quoted text, the key [insertAnchors] sorts by. *)
Definition quote_length (thread : CommentThread) : nat :=
  String.length (quotedText thread).

(** The nesting level [getListPrefix] uses for a bullet. *)
Definition bullet_level (b : Bullet) : nat :=
  match nestingLevel b with Some n => n | None => 0 end.

(** The characters [getElementCharCount] counts for one span. *)
Definition span_chars (span : ParagraphElement) : nat :=
  match textRun span with
  | Some run => String.length (content run)
  | None => 0
  end.

(* ===================================================================== *)
(** ** [src/lib/utils/url.ts] *)
(* ===================================================================== *)

(** The character class [[a-zA-Z0-9_-]]. *)
Definition is_id_char (c : ascii) : bool :=
  let n := N_of_ascii c in
  ((97 <=? n) && (n <=? 122))%N
  || ((65 <=? n) && (n <=? 90))%N
  || ((48 <=? n) && (n <=? 57))%N
  || (n =? 95)%N
  || (n =? 45)%N.

(** The longest run of identifier characters at the start of [s]: what the
    greedy group [([a-zA-Z0-9_-]+)] captures there. *)
Fixpoint take_id (s : string) : string :=
  match s with
  | EmptyString => EmptyString
  | String c rest => if is_id_char c then String c (take_id rest) else EmptyString
  end.

(** [/^[a-zA-Z0-9_-]*$/] *)
Fixpoint all_id_chars (s : string) : bool :=
  match s with
  | EmptyString => true
  | String c rest => is_id_char c && all_id_chars rest
  end.

Definition DOCUMENT_MARKER : string := "/document/d/".

(** [s.match(/\/document\/d\/([a-zA-Z0-9_-]+)/)]: the group of the leftmost
    match, a match being the marker followed by at least one identifier
    character. *)
Fixpoint match_document_url (s : string) : option string :=
  match (if String.prefix DOCUMENT_MARKER s
         then take_id (JsString.drop (String.length DOCUMENT_MARKER) s)
         else EmptyString) with
  | String c captured => Some (String c captured)
  | EmptyString =>
      match s with
      | EmptyString => None
      | String _ rest => match_document_url rest
      end
  end.

Definition extractDocumentId (input : string) : option string :=
  if negb (JsString.truthy input) then None
  else
    let trimmed := JsString.trim input in
    if negb (JsString.truthy trimmed) then None
    else
      match match_document_url trimmed with
      | Some captured => Some captured
      | None =>
          if JsString.truthy trimmed && all_id_chars trimmed
             && (10 <? String.length trimmed)
          then Some trimmed
          else None
      end.

(* ===================================================================== *)
(** ** [src/lib/utils/time.ts] *)
(* ===================================================================== *)

(** [`${n}`] for an integer. *)
Definition string_of_Z (n : Z) : string := NilZero.string_of_int (Z.to_int n).

Section RelativeTime.

(** [new Date(timestamp).toLocaleDateString('en-US', ...)], which depends
    on the time zone of the browser. *)
Variable toLocaleDateString : Z -> string.

(** [Date.now()] is the argument [now]; times are milliseconds. *)
Definition formatRelativeTime (now timestamp : Z) : string :=
  let seconds := ((now - timestamp) / 1000)%Z in
  if (seconds <? 60)%Z then "just now"
  else
    let minutes := (seconds / 60)%Z in
    if (minutes <? 60)%Z then
      if (minutes =? 1)%Z then "1 minute ago"
      else string_of_Z minutes +++ " minutes ago"
    else
      let hours := (minutes / 60)%Z in
      if (hours <? 24)%Z then
        if (hours =? 1)%Z then "1 hour ago"
        else string_of_Z hours +++ " hours ago"
      else
        let days := (hours / 24)%Z in
        if (days <? 2)%Z then "yesterday"
        else if (days <? 30)%Z then string_of_Z days +++ " days ago"
        else toLocaleDateString timestamp.

End RelativeTime.

(* ===================================================================== *)
(** ** [src/lib/stores/history.svelte.ts] *)
(* ===================================================================== *)

Record HistoryEntry := {
  docId : string;
  docUrl : string;
  docTitle : string;
  entry_commentCount : nat;
  convertedAt : Z
}.

Definition MAX_ENTRIES : nat := 50.

Section HistoryStore.

(** What [localStorage] holds under the key of the store; [stringify] is
    [JSON.stringify] on the entries, and [parse] is [JSON.parse] followed by
    [Array.isArray]: [None] when the text is empty, does not parse, or is no
    array. *)
Variable Stored : Type.
Variable stringify : list HistoryEntry -> Stored.
Variable parse : Stored -> option (list HistoryEntry).

(** The module variable [entries] and the item of [localStorage];
    [storage_available] is false when reading and writing [localStorage]
    throw. *)
Record HistoryState := {
  entries : list HistoryEntry;
  storage_available : bool;
  stored : option Stored
}.

Definition persist (st : HistoryState) : HistoryState :=
  if storage_available st
  then {| entries := entries st; storage_available := true;
          stored := Some (stringify (entries st)) |}
  else st.

Definition other_doc (docId' : string) (e : HistoryEntry) : bool :=
  negb (String.eqb (docId e) docId').

Definition addEntry (entry : HistoryEntry) (st : HistoryState) : HistoryState :=
  let kept := filter (other_doc (docId entry)) (entries st) in
  let added := entry :: kept in
  let capped := if MAX_ENTRIES <? length added then firstn MAX_ENTRIES added else added in
  persist {| entries := capped; storage_available := storage_available st;
             stored := stored st |}.

Definition removeEntry (docId' : string) (st : HistoryState) : bool * HistoryState :=
  let len := length (entries st) in
  let kept := filter (other_doc docId') (entries st) in
  let st' := {| entries := kept; storage_available := storage_available st;
                stored := stored st |} in
  if length kept =? len then (false, st') else (true, persist st').

Definition clearHistory (st : HistoryState) : HistoryState :=
  {| entries := [];
     storage_available := storage_available st;
     stored := if storage_available st then None else stored st |}.

Definition restoreHistory (st : HistoryState) : HistoryState :=
  if storage_available st then
    match stored st with
    | None => st
    | Some raw =>
        match parse raw with
        | None => st
        | Some parsed =>
            {| entries := parsed; storage_available := true; stored := stored st |}
        end
    end
  else st.

Definition getEntryByDocId (docId' : string) (st : HistoryState) : option HistoryEntry :=
  find (fun e => String.eqb (docId e) docId') (entries st).

End HistoryStore.

Arguments entries {Stored} _.
Arguments storage_available {Stored} _.
Arguments stored {Stored} _.
Arguments addEntry {Stored} _ _ _.
Arguments removeEntry {Stored} _ _ _.
Arguments clearHistory {Stored} _.
Arguments restoreHistory {Stored} _ _.
Arguments getEntryByDocId {Stored} _ _.

(** A history entry for a document. *)
Definition makeEntry (docId' docTitle' : string) (at' : Z) : HistoryEntry :=
  {| docId := docId';
     docUrl := "https://docs.google.com/document/d/" +++ docId' +++ "/edit";
     docTitle := docTitle'; entry_commentCount := 5; convertedAt := at' |}.

(** A store whose [localStorage] holds the entry list itself. *)
Definition history_of (es : list HistoryEntry) : HistoryState (list HistoryEntry) :=
  {| entries := es; storage_available := true; stored := None |}.

(** The address of a Google Docs document up to the marker. *)
Definition DOCS_HOST : string := "https://docs.google.com".

(* ===================================================================== *)
(** ** [src/lib/stores/auth.svelte.ts] *)
(* ===================================================================== *)

Record User := {
  user_email : string;
  user_name : string;
  user_picture : option string
}.

Record StoredAuth := {
  sa_accessToken : string;
  sa_user : User;
  sa_expiresAt : Z               (* unix ms *)
}.

Section AuthStore.

(** What [localStorage] holds under the key of the store; [stringify_auth]
    is [JSON.stringify] on a [StoredAuth], and [parse_auth] is [JSON.parse]:
    [None] when the text is empty or does not parse, and otherwise the
    [StoredAuth] that was written. *)
Variable AuthStored : Type.
Variable stringify_auth : StoredAuth -> AuthStored.
Variable parse_auth : AuthStored -> option StoredAuth.

(** The module variables and the item of [localStorage];
    [auth_storage_available] is false when [localStorage] throws. *)
Record AuthState := {
  isAuthenticated : bool;
  user : option User;
  accessToken : option string;
  expiresAt : Z;
  auth_storage_available : bool;
  auth_stored : option AuthStored
}.

(** [expiresInSeconds || 3600] *)
Definition lifetime_seconds (expiresInSeconds : option Z) : Z :=
  match expiresInSeconds with
  | Some n => if (n =? 0)%Z then 3600%Z else n
  | None => 3600%Z
  end.

(** [Date.now()] is the argument [now]. *)
Definition setAuth (token : string) (userInfo : User) (expiresInSeconds : option Z)
           (now : Z) (st : AuthState) : AuthState :=
  let expires := (now + lifetime_seconds expiresInSeconds * 1000)%Z in
  {| isAuthenticated := true;
     user := Some userInfo;
     accessToken := Some token;
     expiresAt := expires;
     auth_storage_available := auth_storage_available st;
     auth_stored :=
       if auth_storage_available st
       then Some (stringify_auth {| sa_accessToken := token; sa_user := userInfo;
                                    sa_expiresAt := expires |})
       else auth_stored st |}.

Definition clearAuth (st : AuthState) : AuthState :=
  {| isAuthenticated := false;
     user := None;
     accessToken := None;
     expiresAt := 0;
     auth_storage_available := auth_storage_available st;
     auth_stored := if auth_storage_available st then None else auth_stored st |}.

Definition restoreAuth (now : Z) (st : AuthState) : bool * AuthState :=
  if auth_storage_available st then
    match auth_stored st with
    | None => (false, st)
    | Some raw =>
        match parse_auth raw with
        | None => (false, st)
        | Some saved =>
            if (sa_expiresAt saved <? now + 60000)%Z then
              (false,
               {| isAuthenticated := isAuthenticated st;
                  user := user st;
                  accessToken := accessToken st;
                  expiresAt := expiresAt st;
                  auth_storage_available := true;
                  auth_stored := None |})
            else
              (true,
               {| isAuthenticated := true;
                  user := Some (sa_user saved);
                  accessToken := Some (sa_accessToken saved);
                  expiresAt := sa_expiresAt saved;
                  auth_storage_available := true;
                  auth_stored := auth_stored st |})
        end
    end
  else (false, st).

Definition isTokenExpired (now : Z) (st : AuthState) : bool :=
  (expiresAt st <? now + 60000)%Z.

Definition getAccessToken (st : AuthState) : option string := accessToken st.

End AuthStore.

Arguments isAuthenticated {AuthStored} _.
Arguments user {AuthStored} _.
Arguments accessToken {AuthStored} _.
Arguments expiresAt {AuthStored} _.
Arguments auth_storage_available {AuthStored} _.
Arguments auth_stored {AuthStored} _.
Arguments setAuth {AuthStored} _ _ _ _ _ _.
Arguments clearAuth {AuthStored} _.
Arguments restoreAuth {AuthStored} _ _ _.
Arguments isTokenExpired {AuthStored} _ _.
Arguments getAccessToken {AuthStored} _.

(** A signed-out store whose [localStorage] holds the [StoredAuth]
    itself. *)
Definition signed_out : AuthState StoredAuth :=
  {| isAuthenticated := false; user := None; accessToken := None; expiresAt := 0;
     auth_storage_available := true; auth_stored := None |}.

Definition alice : User :=
  {| user_email := "alice@test.com"; user_name := "Alice"; user_picture := None |}.

(* ===================================================================== *)
(** ** Strings *)
(* ===================================================================== *)

Lemma append_empty_r (s : string) : s +++ "" = s.
Proof. induction s as [| c s IH]; simpl; [reflexivity | now rewrite IH]. Qed.

Lemma append_assoc (a b c : string) : (a +++ b) +++ c = a +++ b +++ c.
Proof. induction a as [| x a IH]; simpl; [reflexivity | now rewrite IH]. Qed.

Lemma prefix_iff (t s : string) :
  String.prefix t s = true <-> exists rest, s = t +++ rest.
Proof.
  revert s. induction t as [| a t IH]; intros s.
  - split; [intros _; now exists s | intros _; now destruct s].
  - destruct s as [| b s]; simpl.
    + split; [discriminate | intros [rest H]; discriminate].
    + destruct (ascii_dec a b) as [-> | Hne].
      * rewrite IH. split; intros [rest H]; exists rest; congruence.
      * split; [discriminate | intros [rest H]; congruence].
Qed.

Lemma includes_unfold (s t : string) :
  JsString.includes s t =
  if String.prefix t s then true
  else match s with
       | EmptyString => false
       | String _ rest => JsString.includes rest t
       end.
Proof. destruct s; reflexivity. Qed.

(** [includes] is substring containment. *)
Lemma includes_iff (s t : string) :
  JsString.includes s t = true <-> exists before after, s = before +++ t +++ after.
Proof.
  induction s as [| c s IH]; rewrite includes_unfold.
  - destruct (String.prefix t "") eqn:Hp.
    + apply prefix_iff in Hp as [rest Hp].
      split; [intros _; now exists "", rest | reflexivity].
    + split; [discriminate |].
      intros [before [after H]].
      destruct before; [| discriminate].
      assert (String.prefix t "" = true) by (apply prefix_iff; now exists after).
      congruence.
  - destruct (String.prefix t (String c s)) eqn:Hp.
    + apply prefix_iff in Hp as [rest Hp].
      split; [intros _; now exists "", rest | reflexivity].
    + rewrite IH. split.
      * intros [before [after H]]. exists (String c before), after.
        simpl. now rewrite H.
      * intros [before [after H]].
        destruct before as [| b before].
        -- assert (String.prefix t (String c s) = true)
             by (apply prefix_iff; now exists after).
           congruence.
        -- simpl in H. injection H as _ H. now exists before, after.
Qed.

(* ===================================================================== *)
(** ** Lists *)
(* ===================================================================== *)

Lemma nth_error_snoc {A : Type} (l : list A) (x y : A) (j : nat) :
  nth_error (l ++ [x]) j = Some y ->
  (j < length l /\ nth_error l j = Some y) \/ (j = length l /\ y = x).
Proof.
  intros H.
  destruct (Nat.lt_ge_cases j (length l)) as [Hlt | Hge].
  - left. split; [assumption |]. now rewrite nth_error_app1 in H.
  - right. rewrite nth_error_app2 in H by assumption.
    destruct (j - length l) as [| d] eqn:Hd; simpl in H.
    + split; [lia | congruence].
    + destruct d; discriminate.
Qed.

Lemma pages_holding_app (i : nat) (ps qs : list PageBoundary) :
  pages_holding i (ps ++ qs) = pages_holding i ps + pages_holding i qs.
Proof.
  unfold pages_holding. now rewrite filter_app, length_app.
Qed.

Lemma pages_holding_past (i bound : nat) (ps : list PageBoundary) :
  Forall (fun p => endElementIndex p <= bound) ps ->
  bound <= i ->
  pages_holding i ps = 0.
Proof.
  unfold pages_holding.
  induction 1 as [| p ps Hp _ IH]; intros Hi; simpl; [reflexivity |].
  unfold in_page at 1.
  destruct (i <? endElementIndex p) eqn:E.
  - apply Nat.ltb_lt in E. lia.
  - rewrite andb_false_r. auto.
Qed.

Lemma closed_pages_end (bound : nat) (ps : list PageBoundary) :
  Forall (fun p => startElementIndex p < endElementIndex p
                   /\ endElementIndex p <= bound) ps ->
  Forall (fun p => endElementIndex p <= bound) ps.
Proof. apply Forall_impl. tauto. Qed.

Lemma closed_pages_weaken (bound bound' : nat) (ps : list PageBoundary) :
  bound <= bound' ->
  Forall (fun p => startElementIndex p < endElementIndex p
                   /\ endElementIndex p <= bound) ps ->
  Forall (fun p => startElementIndex p < endElementIndex p
                   /\ endElementIndex p <= bound') ps.
Proof. intros Hb. apply Forall_impl. intros p [? ?]. split; lia. Qed.

Lemma numbered_snoc (ps : list PageBoundary) (p : PageBoundary) :
  numbered_from_one ps ->
  pageNumber p = length ps + 1 ->
  numbered_from_one (ps ++ [p]).
Proof.
  unfold numbered_from_one. intros Hps Hp.
  rewrite map_app, length_app, Hps. simpl.
  rewrite seq_app. simpl. rewrite Hp. f_equal. f_equal. lia.
Qed.

Lemma ordered_snoc (bound : nat) (ps : list PageBoundary) (p : PageBoundary) :
  ordered_pages ps ->
  Forall (fun q => endElementIndex q <= bound) ps ->
  bound <= startElementIndex p ->
  ordered_pages (ps ++ [p]).
Proof.
  intros Hord Hall Hp a b pa pb Hab Ha Hb.
  apply nth_error_snoc in Hb as [[Hb Hb'] | [Hb ->]].
  - rewrite nth_error_app1 in Ha by lia. eauto.
  - rewrite nth_error_app1 in Ha by lia.
    apply nth_error_In in Ha.
    rewrite Forall_forall in Hall. specialize (Hall _ Ha). lia.
Qed.

(* ===================================================================== *)
(** ** The page estimator *)
(* ===================================================================== *)

Lemma estimate_inv_init : estimate_inv [] estimate_init.
Proof.
  constructor; simpl; auto; try reflexivity.
  all: try (intros j e H; destruct j; discriminate).
  all: try (intros a b pa pb _ Ha; destruct a; discriminate).
Qed.

Lemma in_page_closing (j s k n c : nat) :
  in_page j {| pageNumber := n; startElementIndex := s;
               endElementIndex := k; charCount := c |}
  = (s <=? j) && (j <? k).
Proof. reflexivity. Qed.

Lemma pages_holding_one (j : nat) (p : PageBoundary) :
  pages_holding j [p] = if in_page j p then 1 else 0.
Proof. unfold pages_holding. simpl. now destruct (in_page j p). Qed.

Lemma estimate_step_inv (charsPerPage : Z) (done : list StructuralElement)
      (st : EstimateState) (e : StructuralElement) :
  estimate_inv done st ->
  estimate_inv (done ++ [e]) (estimate_step charsPerPage st (length done) e).
Proof.
  intros [Hnext Hnum Hord Hstart Hfresh Hclosed Hopen Hheld].
  pose proof (closed_pages_end _ _ Hclosed) as Hends.
  assert (Hlen : length (done ++ [e]) = length done + 1)
    by (rewrite length_app; reflexivity).
  unfold estimate_step.
  destruct (hasPageBreak e) eqn:Hpb.
  - destruct ((currentPageStart st <? length done) || (0 <? currentCharCount st)) eqn:Hc.
    + (* a page is closed in front of the page break *)
      assert (Hlt : currentPageStart st < length done).
      { apply orb_true_iff in Hc as [Hc | Hc].
        - now apply Nat.ltb_lt in Hc.
        - apply Nat.ltb_lt in Hc.
          destruct (Nat.eq_dec (currentPageStart st) (length done)) as [E | E];
            [specialize (Hfresh E) |]; lia. }
      constructor; simpl.
      * rewrite length_app. simpl. lia.
      * apply numbered_snoc; [assumption | simpl; lia].
      * apply ordered_snoc with (bound := currentPageStart st); simpl; auto.
      * lia.
      * reflexivity.
      * apply Forall_app. split.
        -- eapply closed_pages_weaken; [| eassumption]. lia.
        -- constructor; [simpl; lia | constructor].
      * intros j e' Hj Hge. apply nth_error_snoc in Hj. lia.
      * intros j e' Hj _.
        rewrite pages_holding_app, pages_holding_one, in_page_closing.
        apply nth_error_snoc in Hj as [[Hj Hj'] | [-> ->]].
        -- destruct (Nat.lt_ge_cases j (currentPageStart st)) as [Hlo | Hhi].
           ++ rewrite (Hheld _ _ Hj' Hlo).
              replace (currentPageStart st <=? j) with false
                by (symmetry; apply Nat.leb_gt; lia).
              simpl. lia.
           ++ rewrite (Hopen _ _ Hj' Hhi).
              rewrite (pages_holding_past _ _ _ Hends Hhi).
              replace (currentPageStart st <=? j) with true
                by (symmetry; apply Nat.leb_le; lia).
              replace (j <? length done) with true
                by (symmetry; apply Nat.ltb_lt; lia).
              reflexivity.
        -- rewrite Hpb, (pages_holding_past _ _ _ Hends Hstart), Nat.ltb_irrefl, andb_false_r.
           reflexivity.
    + (* nothing to close: the page break opens the document or follows
         another page break *)
      apply orb_false_iff in Hc as [Hc _]. apply Nat.ltb_ge in Hc.
      assert (Heq : currentPageStart st = length done) by lia.
      constructor; simpl; auto; try lia.
      * eapply closed_pages_weaken; [| eassumption]. lia.
      * intros j e' Hj Hge. apply nth_error_snoc in Hj. lia.
      * intros j e' Hj _.
        apply nth_error_snoc in Hj as [[Hj Hj'] | [-> ->]].
        -- apply Hheld; [assumption | lia].
        -- rewrite Hpb. apply (pages_holding_past _ _ _ Hends). lia.
  - cbv zeta.
    destruct ((charsPerPage <? Z.of_nat (currentCharCount st + getElementCharCount e))%Z
              && (currentPageStart st <? length done)) eqn:Hc.
    + (* over budget: the page is closed in front of this block *)
      apply andb_true_iff in Hc as [_ Hc]. apply Nat.ltb_lt in Hc.
      constructor; simpl.
      * rewrite length_app. simpl. lia.
      * apply numbered_snoc; [assumption | simpl; lia].
      * apply ordered_snoc with (bound := currentPageStart st); simpl; auto.
      * lia.
      * lia.
      * apply Forall_app. split.
        -- eapply closed_pages_weaken; [| eassumption]. lia.
        -- constructor; [simpl; lia | constructor].
      * intros j e' Hj Hge.
        apply nth_error_snoc in Hj as [[Hj _] | [_ ->]]; [lia | assumption].
      * intros j e' Hj Hjlt.
        rewrite pages_holding_app, pages_holding_one, in_page_closing.
        apply nth_error_snoc in Hj as [[Hj Hj'] | [-> ->]]; [| lia].
        destruct (Nat.lt_ge_cases j (currentPageStart st)) as [Hlo | Hhi].
        -- rewrite (Hheld _ _ Hj' Hlo).
           replace (currentPageStart st <=? j) with false
             by (symmetry; apply Nat.leb_gt; lia).
           simpl. lia.
        -- rewrite (Hopen _ _ Hj' Hhi).
           rewrite (pages_holding_past _ _ _ Hends Hhi).
           replace (currentPageStart st <=? j) with true
             by (symmetry; apply Nat.leb_le; lia).
           replace (j <? length done) with true
             by (symmetry; apply Nat.ltb_lt; lia).
           reflexivity.
    + (* the block joins the current page *)
      constructor; simpl; auto; try lia.
      * intros j e' Hj Hge.
        apply nth_error_snoc in Hj as [[_ Hj] | [_ ->]]; eauto.
      * intros j e' Hj Hjlt.
        apply nth_error_snoc in Hj as [[_ Hj] | [-> _]]; [eauto | lia].
Qed.

Lemma estimate_loop_inv (charsPerPage : Z) (rest done : list StructuralElement)
      (st : EstimateState) :
  estimate_inv done st ->
  estimate_inv (done ++ rest) (estimate_loop charsPerPage rest (length done) st).
Proof.
  revert done st.
  induction rest as [| e rest IH]; intros done st Hinv; simpl.
  - now rewrite app_nil_r.
  - replace (done ++ e :: rest) with ((done ++ [e]) ++ rest)
      by (rewrite <- app_assoc; reflexivity).
    replace (S (length done)) with (length (done ++ [e]))
      by (rewrite length_app; simpl; lia).
    apply IH. now apply estimate_step_inv.
Qed.

Lemma estimate_loop_whole (charsPerPage : Z) (els : list StructuralElement) :
  estimate_inv els (estimate_loop charsPerPage els 0 estimate_init).
Proof.
  apply (estimate_loop_inv charsPerPage els [] estimate_init estimate_inv_init).
Qed.

Lemma closed_pages_bounds (bound n : nat) (ps : list PageBoundary) :
  bound <= n ->
  Forall (fun p => startElementIndex p < endElementIndex p
                   /\ endElementIndex p <= bound) ps ->
  Forall (fun p => startElementIndex p <= endElementIndex p
                   /\ endElementIndex p <= n) ps.
Proof. intros Hb. apply Forall_impl. intros p [? ?]. split; lia. Qed.

Lemma closed_pages_all_nonempty (bound : nat) (ps : list PageBoundary) :
  Forall (fun p => startElementIndex p < endElementIndex p
                   /\ endElementIndex p <= bound) ps ->
  forall a pa, nth_error ps a = Some pa ->
               startElementIndex pa < endElementIndex pa.
Proof.
  intros Hall a pa Ha. apply nth_error_In in Ha.
  rewrite Forall_forall in Hall. now apply Hall.
Qed.

Lemma estimatePages_post (elements : list StructuralElement) (charsPerPage : option Z) :
  estimate_post elements (estimatePages elements charsPerPage).
Proof.
  unfold estimatePages.
  destruct elements as [| e0 rest].
  - constructor; simpl.
    + discriminate.
    + reflexivity.
    + intros a b pa pb Hab Ha Hb. destruct b as [| b]; [lia |].
      destruct b; discriminate.
    + repeat constructor.
    + intros a pa _ Ha. simpl in Ha. lia.
    + intros j e H. destruct j; discriminate.
  - cbv zeta. remember (e0 :: rest) as els eqn:Hels.
    assert (Hpos : 0 < length els) by (subst els; simpl; lia).
    clear Hels.
    set (budget := or_default charsPerPage DEFAULT_CHARS_PER_PAGE).
    pose proof (estimate_loop_whole budget els) as Hinv.
    set (st := estimate_loop budget els 0 estimate_init) in *.
    destruct Hinv as [Hnext Hnum Hord Hstart Hfresh Hclosed Hopen Hheld].
    pose proof (closed_pages_end _ _ Hclosed) as Hends.
    destruct ((currentPageStart st <=? length els - 1) || (length (pages st) =? 0)) eqn:Hc.
    + (* the final page is pushed *)
      constructor.
      * intros H. apply app_eq_nil in H as [_ H]. discriminate.
      * apply numbered_snoc; [assumption | simpl; lia].
      * apply ordered_snoc with (bound := currentPageStart st); simpl; auto.
      * apply Forall_app. split.
        -- eapply closed_pages_bounds; eassumption.
        -- constructor; [simpl; lia | constructor].
      * intros a pa Ha Hlast. rewrite length_app in Hlast. simpl in Hlast.
        rewrite nth_error_app1 in Ha by lia.
        eapply closed_pages_all_nonempty; eassumption.
      * intros j e Hj.
        assert (Hjn : j < length els) by (apply nth_error_Some; congruence).
        rewrite pages_holding_app, pages_holding_one, in_page_closing.
        destruct (Nat.lt_ge_cases j (currentPageStart st)) as [Hlo | Hhi].
        -- rewrite (Hheld _ _ Hj Hlo).
           replace (currentPageStart st <=? j) with false
             by (symmetry; apply Nat.leb_gt; lia).
           simpl. lia.
        -- rewrite (Hopen _ _ Hj Hhi).
           rewrite (pages_holding_past _ _ _ Hends Hhi).
           replace (currentPageStart st <=? j) with true
             by (symmetry; apply Nat.leb_le; lia).
           replace (j <? length els) with true
             by (symmetry; apply Nat.ltb_lt; lia).
           reflexivity.
    + (* the document ends on a page break behind a closed page *)
      apply orb_false_iff in Hc as [Hc Hsome].
      apply Nat.leb_gt in Hc. apply Nat.eqb_neq in Hsome.
      constructor; auto.
      * intros H. rewrite H in Hsome. now apply Hsome.
      * eapply closed_pages_bounds; eassumption.
      * intros a pa Ha _. eapply closed_pages_all_nonempty; eassumption.
      * intros j e Hj. apply Hheld; [assumption |].
        assert (Hjn : j < length els) by (apply nth_error_Some; congruence).
        lia.
Qed.

Lemma estimate_step_joins (charsPerPage : Z) (st : EstimateState) (i : nat)
      (e : StructuralElement) :
  hasPageBreak e = false ->
  (Z.of_nat (currentCharCount st + getElementCharCount e) <= charsPerPage)%Z
  \/ i <= currentPageStart st ->
  estimate_step charsPerPage st i e =
  {| pages := pages st;
     currentPageStart := currentPageStart st;
     currentCharCount := currentCharCount st + getElementCharCount e;
     nextPageNumber := nextPageNumber st |}.
Proof.
  intros Hpb Hroom. unfold estimate_step. rewrite Hpb. cbv zeta.
  destruct Hroom as [Hroom | Hroom].
  - replace (charsPerPage <? _)%Z with false by (symmetry; apply Z.ltb_ge; lia).
    reflexivity.
  - replace (currentPageStart st <? i) with false by (symmetry; apply Nat.ltb_ge; lia).
    now rewrite andb_false_r.
Qed.

Lemma estimate_step_splits (charsPerPage : Z) (st : EstimateState) (i : nat)
      (e : StructuralElement) :
  hasPageBreak e = false ->
  (charsPerPage < Z.of_nat (currentCharCount st + getElementCharCount e))%Z ->
  currentPageStart st < i ->
  estimate_step charsPerPage st i e =
  {| pages := pages st ++
              [{| pageNumber := nextPageNumber st;
                  startElementIndex := currentPageStart st;
                  endElementIndex := i;
                  charCount := currentCharCount st + getElementCharCount e
                               - getElementCharCount e |}];
     currentPageStart := i;
     currentCharCount := getElementCharCount e;
     nextPageNumber := nextPageNumber st + 1 |}.
Proof.
  intros Hpb Hover Hprior. unfold estimate_step. rewrite Hpb. cbv zeta.
  replace (charsPerPage <? _)%Z with true by (symmetry; apply Z.ltb_lt; lia).
  replace (currentPageStart st <? i) with true by (symmetry; apply Nat.ltb_lt; lia).
  reflexivity.
Qed.

Lemma estimatePages_one_block (e : StructuralElement) (charsPerPage : option Z) :
  hasPageBreak e = false ->
  estimatePages [e] charsPerPage =
  [{| pageNumber := 1; startElementIndex := 0; endElementIndex := 1;
      charCount := getElementCharCount e |}].
Proof.
  intros Hpb. unfold estimatePages. cbn [estimate_loop].
  rewrite estimate_step_joins by (auto; right; simpl; lia).
  reflexivity.
Qed.

Lemma estimate_step_first_on_page (charsPerPage : Z) (st : EstimateState) (i : nat)
      (e : StructuralElement) :
  hasPageBreak e = false ->
  i <= currentPageStart st ->
  pages (estimate_step charsPerPage st i e) = pages st
  /\ currentPageStart (estimate_step charsPerPage st i e) = currentPageStart st.
Proof.
  intros Hpb Hi. rewrite estimate_step_joins by auto. split; reflexivity.
Qed.

(** C3 (as amended).  The pages of [estimatePages] are numbered 1, 2, ... in
    list order and ordered by block index, their half-open ranges lie
    inside the document, and they cover the blocks that carry no hard page
    break exactly once: such a block lies in exactly one range, while a
    block flagged as a hard page break lies in none. *)
Theorem estimatePages_covers_unbroken_blocks :
  forall (elements : list StructuralElement) (charsPerPage : option Z),
    numbered_from_one (estimatePages elements charsPerPage)
    /\ ordered_pages (estimatePages elements charsPerPage)
    /\ Forall (fun p => startElementIndex p <= endElementIndex p
                        /\ endElementIndex p <= length elements)
               (estimatePages elements charsPerPage)
    /\ (forall j e,
           nth_error elements j = Some e ->
           pages_holding j (estimatePages elements charsPerPage)
           = if hasPageBreak e then 0 else 1).
Proof.
  intros elements charsPerPage.
  destruct (estimatePages_post elements charsPerPage) as [_ Hnum Hord Hbounds _ Hheld].
  auto.
Qed.

Lemma estimatePages_covers_unbroken_blocks_witness :
  pages_holding 2 (estimatePages break_example None) = 1.
Proof.
  exact (proj2 (proj2 (proj2 (estimatePages_covers_unbroken_blocks break_example None)))
               2 (text_block "After break") eq_refl).
Defined.

(** C3 as stated fails: in para, page break, para the block with the page
    break (index 1) lies in no page, so not every block index lies in
    exactly one range. *)
Lemma page_break_block_lies_in_no_page :
  ~ (forall j, j < length break_example ->
               pages_holding j (estimatePages break_example None) = 1).
Proof.
  intros H. specialize (H 1 ltac:(simpl; lia)). vm_compute in H. discriminate.
Qed.

(** C5 (as amended).  [estimatePages] never splits a block: no block index
    lies in two pages, a block without a page break lies in exactly one
    page whatever its character count, every page that is followed by
    another holds at least one block, and the loop leaves the page open
    when the block at hand is the first one on it.  A one-block input whose
    block carries no page break yields exactly the page [0,1). *)
Theorem estimatePages_never_splits_a_block :
  forall (elements : list StructuralElement) (charsPerPage : option Z),
    (forall j e,
        nth_error elements j = Some e ->
        pages_holding j (estimatePages elements charsPerPage) <= 1
        /\ (hasPageBreak e = false ->
            pages_holding j (estimatePages elements charsPerPage) = 1))
    /\ closed_pages_nonempty (estimatePages elements charsPerPage)
    /\ (forall budget st i e,
           hasPageBreak e = false ->
           i <= currentPageStart st ->
           pages (estimate_step budget st i e) = pages st)
    /\ (forall e,
           hasPageBreak e = false ->
           estimatePages [e] charsPerPage =
           [{| pageNumber := 1; startElementIndex := 0; endElementIndex := 1;
               charCount := getElementCharCount e |}]).
Proof.
  intros elements charsPerPage.
  destruct (estimatePages_post elements charsPerPage) as [_ _ _ _ Hne Hheld].
  split; [| split; [| split]].
  - intros j e Hj. rewrite (Hheld _ _ Hj). split.
    + destruct (hasPageBreak e); lia.
    + intros Hpb. now rewrite Hpb.
  - exact Hne.
  - intros budget st i e Hpb Hi.
    now destruct (estimate_step_first_on_page budget st i e Hpb Hi).
  - intros e Hpb. now apply estimatePages_one_block.
Qed.

Lemma estimatePages_never_splits_a_block_witness :
  pages_holding 0 (estimatePages [text_block "Hello world."] (Some 5%Z)) = 1
  /\ estimatePages [text_block "Hello world."] (Some 5%Z)
     = [{| pageNumber := 1; startElementIndex := 0; endElementIndex := 1;
           charCount := 12 |}].
Proof.
  pose proof (estimatePages_never_splits_a_block
                [text_block "Hello world."] (Some 5%Z)) as [Hheld [_ [_ Hone]]].
  split.
  - exact (proj2 (Hheld 0 (text_block "Hello world.") eq_refl) eq_refl).
  - exact (Hone (text_block "Hello world.") eq_refl).
Defined.

(** C5 as stated fails on a one-block input whose block is a hard page
    break: the single page returned is the empty range [1,1), which does
    not contain the block. *)
Lemma lone_page_break_block_is_on_no_page :
  ~ (exists page,
        estimatePages [page_break_block] None = [page]
        /\ in_page 0 page = true).
Proof.
  intros [page [Hpages Hin]]. vm_compute in Hpages.
  injection Hpages as <-. discriminate Hin.
Qed.

(* ===================================================================== *)
(** ** The page filter *)
(* ===================================================================== *)

Lemma filter_none {A : Type} (f : A -> bool) (l : list A) :
  (forall x, In x l -> f x = false) -> filter f l = [].
Proof.
  induction l as [| x l IH]; intros H; simpl; [reflexivity |].
  rewrite (H x (or_introl eq_refl)). apply IH. intros y Hy. apply H. now right.
Qed.

Lemma numbered_members (ps : list PageBoundary) (p : PageBoundary) :
  numbered_from_one ps -> In p ps -> 1 <= pageNumber p <= length ps.
Proof.
  unfold numbered_from_one. intros Hnum Hin.
  apply (in_map pageNumber) in Hin. rewrite Hnum in Hin.
  apply in_seq in Hin. lia.
Qed.

Lemma numbered_init (ps : list PageBoundary) (p : PageBoundary) :
  numbered_from_one (ps ++ [p]) ->
  numbered_from_one ps /\ pageNumber p = length ps + 1.
Proof.
  unfold numbered_from_one. rewrite map_app, length_app, seq_app. simpl.
  intros H. apply app_inj_tail in H as [H1 H2]. split; [assumption | lia].
Qed.

(** With pages numbered from one, asking for pages [total..total] selects
    the last page and nothing else. *)
Lemma select_last_page (init : list PageBoundary) (l : PageBoundary) (lo hi : Z) :
  numbered_from_one (init ++ [l]) ->
  lo = Z.of_nat (length (init ++ [l])) ->
  hi = Z.of_nat (length (init ++ [l])) ->
  filter (fun p => (lo <=? Z.of_nat (pageNumber p))%Z
                   && (Z.of_nat (pageNumber p) <=? hi)%Z) (init ++ [l]) = [l].
Proof.
  intros Hnum -> ->. rewrite length_app. simpl length.
  apply numbered_init in Hnum as [Hinit Hl].
  rewrite filter_app, filter_none.
  - simpl. rewrite Hl.
    replace (_ <=? _)%Z with true by (symmetry; apply Z.leb_le; lia).
    reflexivity.
  - intros p Hp. pose proof (numbered_members _ _ Hinit Hp) as Hrange.
    replace (Z.of_nat (length init + 1) <=? Z.of_nat (pageNumber p))%Z with false
      by (symmetry; apply Z.leb_gt; lia).
    reflexivity.
Qed.

(** Reading the blocks [length before .. length before + length blocks) of
    [before ++ blocks] gives [blocks] back. *)
Lemma read_range (before blocks : list StructuralElement) :
  flat_map (fun i => match nth_error (before ++ blocks) i with
                     | Some e => [e]
                     | None => []
                     end)
           (seq (length before) (length blocks)) = blocks.
Proof.
  revert before.
  induction blocks as [| e rest IH]; intros before; simpl; [reflexivity |].
  rewrite nth_error_app2, Nat.sub_diag by lia. simpl. f_equal.
  replace (before ++ e :: rest) with ((before ++ [e]) ++ rest)
    by (rewrite <- app_assoc; reflexivity).
  replace (S (length before)) with (length (before ++ [e]))
    by (rewrite length_app; simpl; lia).
  apply IH.
Qed.

Lemma in_page_of_holding (j : nat) (p : PageBoundary) :
  pages_holding j [p] = 1 ->
  startElementIndex p <= j < endElementIndex p.
Proof.
  rewrite pages_holding_one. unfold in_page.
  destruct (startElementIndex p <=? j) eqn:E1; simpl; [| discriminate].
  destruct (j <? endElementIndex p) eqn:E2; [| discriminate].
  apply Nat.leb_le in E1. apply Nat.ltb_lt in E2. lia.
Qed.

(** A document that is one page and has no hard page break is that page. *)
Lemma single_page_is_whole (elements : list StructuralElement)
      (charsPerPage : option Z) (p : PageBoundary) :
  estimatePages elements charsPerPage = [p] ->
  Forall (fun e => hasPageBreak e = false) elements ->
  page_elements elements p = elements.
Proof.
  intros Hpages Hplain.
  destruct (estimatePages_post elements charsPerPage) as [_ _ _ Hbounds _ Hheld].
  rewrite Hpages in Hbounds, Hheld.
  apply Forall_inv in Hbounds. destruct Hbounds as [Hse Hen].
  assert (Hin : forall j, j < length elements ->
                          startElementIndex p <= j < endElementIndex p).
  { intros j Hj.
    destruct (nth_error elements j) as [e |] eqn:He.
    - apply in_page_of_holding. rewrite (Hheld _ _ He).
      rewrite Forall_forall in Hplain.
      now rewrite (Hplain e (nth_error_In _ _ He)).
    - apply nth_error_None in He. lia. }
  unfold page_elements.
  destruct elements as [| e0 rest].
  - simpl in Hen. replace (endElementIndex p - startElementIndex p) with 0 by lia.
    reflexivity.
  - pose proof (Hin 0 ltac:(simpl; lia)) as H0.
    pose proof (Hin (length rest) ltac:(simpl; lia)) as Hn.
    simpl in Hen.
    replace (startElementIndex p) with (@length StructuralElement []) by (simpl; lia).
    replace (endElementIndex p - length []) with (length (e0 :: rest)) by (simpl; lia).
    apply (read_range [] (e0 :: rest)).
Qed.

Lemma filterByPageRange_single_page (elements : list StructuralElement)
      (charsPerPage : option Z) :
  length (estimatePages elements charsPerPage) = 1 ->
  Forall (fun e => hasPageBreak e = false) elements ->
  fr_elements (filterByPageRange elements 1 None charsPerPage) = elements.
Proof.
  intros Hone Hplain. unfold filterByPageRange. cbv zeta. simpl fr_elements.
  destruct (estimatePages elements charsPerPage) as [| p [| q ps]] eqn:Hpages;
    try discriminate.
  pose proof (estimatePages_post elements charsPerPage) as Hpost.
  rewrite Hpages in Hpost. destruct Hpost as [_ Hnum _ _ _ _].
  unfold numbered_from_one in Hnum. simpl in Hnum. injection Hnum as Hp.
  simpl. rewrite Hp. simpl. rewrite app_nil_r.
  eapply single_page_is_whole; eassumption.
Qed.

Lemma estimatePages_in_bounds (elements : list StructuralElement)
      (charsPerPage : option Z) :
  Forall (fun p => startElementIndex p <= endElementIndex p
                   /\ endElementIndex p <= length elements)
         (estimatePages elements charsPerPage).
Proof. apply estimatePages_post. Qed.

(** C7 (as amended).  [filterByPageRange] is total and reads no block
    index outside the document.  It clamps [startPage] into
    [1, totalPages], so zero and negative values become 1 and a value past
    the last page becomes the last page; [endPage] is
    [min (clampedStart + pageCount - 1) totalPages] when [pageCount] is
    given and [totalPages] otherwise, so a [pageCount] reaching past the
    end resolves to the last page.  A start past the last page gives the
    single last page when [pageCount] is absent or at least 1. *)
Theorem filterByPageRange_clamps :
  forall (elements : list StructuralElement) (requested : Z)
         (pageCount charsPerPage : option Z),
    let pages := estimatePages elements charsPerPage in
    let total := Z.of_nat (length pages) in
    let result := filterByPageRange elements requested pageCount charsPerPage in
    totalPages result = length pages
    /\ Forall (fun p => startElementIndex p <= endElementIndex p
                        /\ endElementIndex p <= length elements) pages
    /\ startPage result = Z.min (Z.max 1 requested) total
    /\ (1 <= startPage result <= total)%Z
    /\ ((requested <= 1)%Z -> startPage result = 1%Z)
    /\ ((total <= requested)%Z -> startPage result = total)
    /\ endPage result =
       match pageCount with
       | None => total
       | Some count => Z.min (startPage result + count - 1) total
       end
    /\ (endPage result <= total)%Z
    /\ (forall count, pageCount = Some count ->
                      (total <= startPage result + count - 1)%Z ->
                      endPage result = total)
    /\ ((total <= requested)%Z ->
        (forall count, pageCount = Some count -> (1 <= count)%Z) ->
        endPage result = total
        /\ exists lastPage,
            nth_error pages (length pages - 1) = Some lastPage
            /\ fr_elements result = page_elements elements lastPage).
Proof.
  intros elements requested pageCount charsPerPage pages total result.
  pose proof (estimatePages_post elements charsPerPage) as Hpost.
  fold pages in Hpost. destruct Hpost as [Hsome Hnum _ Hbounds _ _].
  assert (Htotal : (1 <= total)%Z).
  { subst total. destruct pages; [congruence | simpl length; lia]. }
  assert (Hend : endPage result =
                 match pageCount with
                 | None => total
                 | Some count => Z.min (startPage result + count - 1) total
                 end) by (destruct pageCount; reflexivity).
  assert (Hclamp : startPage result = Z.min (Z.max 1 requested) total) by reflexivity.
  split; [reflexivity |].
  split; [exact Hbounds |].
  split; [exact Hclamp |].
  split; [lia |].
  split; [lia |].
  split; [lia |].
  split; [exact Hend |].
  split; [rewrite Hend; destruct pageCount; lia |].
  split; [intros count Hcount Hpast; rewrite Hend, Hcount; lia |].
  intros Hpast Hcount.
  assert (Hlo : Z.min (Z.max 1 requested) total = total) by lia.
  assert (Hhi : match pageCount with
                | None => total
                | Some count =>
                    Z.min (Z.min (Z.max 1 requested) total + count - 1) total
                end = total).
  { destruct pageCount as [count |]; [| reflexivity].
    specialize (Hcount count eq_refl). lia. }
  split.
  - rewrite Hend, Hclamp. exact Hhi.
  - destruct (exists_last Hsome) as [init [lastPage Hsplit]].
    exists lastPage. split.
    + rewrite Hsplit, length_app. simpl.
      rewrite nth_error_app2 by lia.
      replace (length init + 1 - 1 - length init) with 0 by lia. reflexivity.
    + unfold result, filterByPageRange. cbv zeta. simpl fr_elements.
      fold pages. fold total.
      rewrite Hhi, Hlo. unfold total. rewrite Hsplit in *.
      rewrite select_last_page by (auto; reflexivity).
      simpl. now rewrite app_nil_r.
Qed.

Lemma filterByPageRange_clamps_witness :
  startPage (filterByPageRange six_paragraphs 99 (Some 1%Z) None) = 2%Z
  /\ endPage (filterByPageRange six_paragraphs 99 (Some 1%Z) None) = 2%Z.
Proof.
  pose proof (filterByPageRange_clamps six_paragraphs 99 (Some 1%Z) None) as H.
  cbv zeta in H.
  destruct H as (_ & _ & _ & _ & _ & Hstart & _ & _ & _ & Hlast).
  assert (Hpast : (Z.of_nat (length (estimatePages six_paragraphs None)) <= 99)%Z)
    by (vm_compute; discriminate).
  split.
  - rewrite (Hstart Hpast). vm_compute. reflexivity.
  - destruct (Hlast Hpast) as [Hend _].
    + intros count Hcount. injection Hcount as <-. lia.
    + rewrite Hend. vm_compute. reflexivity.
Defined.

(** C7 as stated fails for a page count of zero: on a one-page document,
    [startPage = 2] is clamped to page 1, but [endPage] resolves to 0, below
    the start, and no page is selected: the result is not that single
    page. *)
Lemma zero_page_count_selects_no_page :
  startPage (filterByPageRange [text_block "Hello world."] 2 (Some 0%Z) None) = 1%Z
  /\ endPage (filterByPageRange [text_block "Hello world."] 2 (Some 0%Z) None) = 0%Z
  /\ fr_elements (filterByPageRange [text_block "Hello world."] 2 (Some 0%Z) None) = []
  /\ fr_elements (filterByPageRange [text_block "Hello world."] 2 (Some 0%Z) None)
     <> [text_block "Hello world."].
Proof. vm_compute. repeat split; discriminate. Qed.

(* ===================================================================== *)
(** ** The thread filter and renumberer *)
(* ===================================================================== *)

Lemma mapi_from_length {A B : Type} (f : A -> nat -> B) (k : nat) (xs : list A) :
  length (mapi_from f k xs) = length xs.
Proof.
  revert k. induction xs as [| x xs IH]; intros k; simpl; [reflexivity |].
  now rewrite IH.
Qed.

Lemma renumbered_anchors (k : nat) (threads : list CommentThread) :
  map anchorId (mapi_from renumbered k threads)
  = map anchor_of_index (seq k (length threads)).
Proof.
  revert k. induction threads as [| t threads IH]; intros k; simpl; [reflexivity |].
  now rewrite IH.
Qed.

Lemma filterAndRenumberThreads_anchors (threads : list CommentThread)
      (elements : list StructuralElement) :
  map anchorId (filterAndRenumberThreads threads elements)
  = contiguous_anchors (length (filterAndRenumberThreads threads elements)).
Proof.
  unfold filterAndRenumberThreads, mapi, contiguous_anchors. cbv zeta.
  now rewrite renumbered_anchors, mapi_from_length.
Qed.

Lemma renumbered_fixed (k : nat) (threads : list CommentThread) :
  map anchorId threads = map anchor_of_index (seq k (length threads)) ->
  mapi_from renumbered k threads = threads.
Proof.
  revert k. induction threads as [| t threads IH]; intros k H; simpl; [reflexivity |].
  simpl in H. injection H as Ht Hrest.
  rewrite (IH _ Hrest). f_equal.
  destruct t as [i a q r cs]. unfold renumbered. simpl in *. now rewrite Ht.
Qed.

Lemma filter_all {A : Type} (f : A -> bool) (l : list A) :
  Forall (fun x => f x = true) l -> filter f l = l.
Proof.
  induction 1 as [| x l Hx _ IH]; simpl; [reflexivity |].
  now rewrite Hx, IH.
Qed.

Lemma truthy_nonempty (s : string) : s <> "" -> JsString.truthy s = true.
Proof. destruct s; [congruence | reflexivity]. Qed.

(** Threads numbered c1..cN whose quoted texts are non-empty and occur in
    the text of the blocks pass the filter and keep their numbers. *)
Lemma renumbering_contiguous_is_identity (threads : list CommentThread)
      (elements : list StructuralElement) :
  map anchorId threads = contiguous_anchors (length threads) ->
  Forall (fun t => quotedText t <> ""
                   /\ JsString.includes (extractAllText elements) (quotedText t) = true)
         threads ->
  filterAndRenumberThreads threads elements = threads.
Proof.
  intros Hanchors Hquoted. unfold filterAndRenumberThreads, mapi. cbv zeta.
  rewrite filter_all.
  - now apply renumbered_fixed.
  - eapply Forall_impl; [| exact Hquoted].
    intros t [Hne Hin]. unfold quoted_in. now rewrite truthy_nonempty, Hin.
Qed.

(** C6 as stated fails when one of the six paragraphs carries a hard page
    break: with the break in the fourth paragraph, all six of 1000
    characters, [estimatePages] returns the pages [0,3) and [4,6), the
    second of two blocks only, and [filterByPageRange] with
    [startPage = 2] and [pageCount = 1] returns the last two blocks, not
    the last three. *)
Lemma page_break_in_fourth_paragraph_shortens_page_two :
  length six_paragraphs_with_break = 6
  /\ Forall (fun e => getElementCharCount e = 1000) six_paragraphs_with_break
  /\ estimatePages six_paragraphs_with_break (Some 3000%Z) =
     [ {| pageNumber := 1; startElementIndex := 0; endElementIndex := 3;
          charCount := 3000 |};
       {| pageNumber := 2; startElementIndex := 4; endElementIndex := 6;
          charCount := 2000 |} ]
  /\ estimatePages six_paragraphs_with_break (Some 3000%Z) <>
     [ {| pageNumber := 1; startElementIndex := 0; endElementIndex := 3;
          charCount := 3000 |};
       {| pageNumber := 2; startElementIndex := 3; endElementIndex := 6;
          charCount := 3000 |} ]
  /\ fr_elements (filterByPageRange six_paragraphs_with_break 2 (Some 1%Z) (Some 3000%Z))
     = skipn 4 six_paragraphs_with_break
  /\ fr_elements (filterByPageRange six_paragraphs_with_break 2 (Some 1%Z) (Some 3000%Z))
     <> skipn 3 six_paragraphs_with_break.
Proof.
  split; [reflexivity |].
  split; [repeat constructor |].
  split; [vm_compute; reflexivity |].
  split; [vm_compute; discriminate |].
  split; [vm_compute; reflexivity |].
  vm_compute. discriminate.
Qed.

(** C6 (as amended).  Six blocks of 1000 characters each, none with a hard
    page break, at a budget of 3000: [estimatePages] returns the two pages
    [0,3) and [3,6); [filterByPageRange] with [startPage = 2] and
    [pageCount = 1] returns the last three blocks; and the threads that
    [filterAndRenumberThreads] keeps for those blocks carry the anchors
    c1, c2, ... in order. *)
Theorem six_paragraph_scenario :
  forall (elements : list StructuralElement) (charsPerPage : option Z)
         (threads : list CommentThread),
    length elements = 6 ->
    Forall (fun e => hasPageBreak e = false /\ getElementCharCount e = 1000) elements ->
    or_default charsPerPage DEFAULT_CHARS_PER_PAGE = 3000%Z ->
    estimatePages elements charsPerPage =
    [ {| pageNumber := 1; startElementIndex := 0; endElementIndex := 3; charCount := 3000 |};
      {| pageNumber := 2; startElementIndex := 3; endElementIndex := 6; charCount := 3000 |} ]
    /\ filterByPageRange elements 2 (Some 1%Z) charsPerPage =
       {| fr_elements := skipn 3 elements; totalPages := 2;
          startPage := 2; endPage := 2 |}
    /\ map anchorId
           (filterAndRenumberThreads threads
              (fr_elements (filterByPageRange elements 2 (Some 1%Z) charsPerPage)))
       = contiguous_anchors
           (length (filterAndRenumberThreads threads
              (fr_elements (filterByPageRange elements 2 (Some 1%Z) charsPerPage)))).
Proof.
  intros elements charsPerPage threads Hlen Hall Hbudget.
  destruct elements as [| e1 [| e2 [| e3 [| e4 [| e5 [| e6 [| e7 rest]]]]]]];
    try discriminate.
  repeat match goal with
         | H : Forall _ (_ :: _) |- _ =>
             let Hhead := fresh "Hhead" in
             let Hpb := fresh "Hpb" in
             let Hcount := fresh "Hcount" in
             apply Forall_cons_iff in H; destruct H as [Hhead H];
             destruct Hhead as [Hpb Hcount]
         end.
  assert (Hpages :
            estimatePages [e1; e2; e3; e4; e5; e6] charsPerPage =
            [ {| pageNumber := 1; startElementIndex := 0; endElementIndex := 3;
                 charCount := 3000 |};
              {| pageNumber := 2; startElementIndex := 3; endElementIndex := 6;
                 charCount := 3000 |} ]).
  { unfold estimatePages. rewrite Hbudget. cbn [estimate_loop].
    rewrite (estimate_step_joins _ _ 0 e1) by (auto; right; simpl; lia).
    cbn [pages currentPageStart currentCharCount nextPageNumber estimate_init].
    rewrite (estimate_step_joins _ _ 1 e2)
      by (auto; left; cbn [currentCharCount]; lia).
    cbn [pages currentPageStart currentCharCount nextPageNumber].
    rewrite (estimate_step_joins _ _ 2 e3)
      by (auto; left; cbn [currentCharCount]; lia).
    cbn [pages currentPageStart currentCharCount nextPageNumber].
    rewrite (estimate_step_splits _ _ 3 e4)
      by (auto; cbn [currentCharCount currentPageStart]; lia).
    cbn [pages currentPageStart currentCharCount nextPageNumber].
    rewrite (estimate_step_joins _ _ 4 e5)
      by (auto; left; cbn [currentCharCount]; lia).
    cbn [pages currentPageStart currentCharCount nextPageNumber].
    rewrite (estimate_step_joins _ _ 5 e6)
      by (auto; left; cbn [currentCharCount]; lia).
    cbn [pages currentPageStart currentCharCount nextPageNumber].
    rewrite Hcount, Hcount0, Hcount1, Hcount2, Hcount3, Hcount4.
    cbn [length Nat.sub Nat.leb orb app Nat.add].
    repeat f_equal; lia. }
  split; [exact Hpages |].
  split.
  - unfold filterByPageRange. rewrite Hpages. reflexivity.
  - apply filterAndRenumberThreads_anchors.
Qed.

Lemma six_paragraph_scenario_witness :
  estimatePages six_paragraphs None =
  [ {| pageNumber := 1; startElementIndex := 0; endElementIndex := 3; charCount := 3000 |};
    {| pageNumber := 2; startElementIndex := 3; endElementIndex := 6; charCount := 3000 |} ]
  /\ fr_elements (filterByPageRange six_paragraphs 2 (Some 1%Z) None)
     = skipn 3 six_paragraphs
  /\ map anchorId
         (filterAndRenumberThreads six_paragraph_threads
            (fr_elements (filterByPageRange six_paragraphs 2 (Some 1%Z) None)))
     = ["c1"; "c2"].
Proof.
  destruct (six_paragraph_scenario six_paragraphs None six_paragraph_threads)
    as [Hpages [Hfilter Hanchors]].
  - reflexivity.
  - repeat constructor.
  - reflexivity.
  - split; [exact Hpages |]. split; [now rewrite Hfilter |].
    rewrite Hanchors. vm_compute. reflexivity.
Defined.

(** C9.  A thread list numbered c1..cN in list order, every quoted text
    non-empty and occurring in the concatenated text of the blocks, comes
    back from [filterAndRenumberThreads] unchanged: same threads, same
    anchor identifiers. *)
Theorem renumbering_contiguous_threads_changes_nothing :
  forall (threads : list CommentThread) (elements : list StructuralElement),
    map anchorId threads = contiguous_anchors (length threads) ->
    Forall (fun t => quotedText t <> ""
                     /\ JsString.includes (extractAllText elements) (quotedText t) = true)
           threads ->
    filterAndRenumberThreads threads elements = threads
    /\ map anchorId (filterAndRenumberThreads threads elements) = map anchorId threads.
Proof.
  intros threads elements Hanchors Hquoted.
  rewrite (renumbering_contiguous_is_identity threads elements Hanchors Hquoted).
  split; reflexivity.
Qed.

Lemma renumbering_contiguous_threads_changes_nothing_witness :
  filterAndRenumberThreads greeting_threads greeting_blocks = greeting_threads.
Proof.
  apply (renumbering_contiguous_threads_changes_nothing greeting_threads greeting_blocks).
  - reflexivity.
  - repeat constructor; discriminate.
Defined.

(* ===================================================================== *)
(** ** Drive comments *)
(* ===================================================================== *)

Lemma mapi_from_related {A B : Type} (f : A -> nat -> B) (k : nat) (xs : list A) :
  Forall2 (fun x y => exists index, y = f x index) xs (mapi_from f k xs).
Proof.
  revert k. induction xs as [| x xs IH]; intros k; simpl; constructor; eauto.
Qed.

Lemma thread_of_comment_anchors (k : nat) (comments : list DriveComment) :
  map anchorId (mapi_from thread_of_comment k comments)
  = map anchor_of_index (seq k (length comments)).
Proof.
  revert k. induction comments as [| c comments IH]; intros k; simpl; [reflexivity |].
  now rewrite IH.
Qed.

Lemma drive_comment_dropped (c : DriveComment) :
  drive_comment_kept c = false <-> dc_resolved c = true /\ quotedFileContent c = None.
Proof.
  unfold drive_comment_kept.
  destruct (dc_resolved c), (quotedFileContent c); simpl;
    intuition (auto; discriminate).
Qed.

(** C10.  [convertDriveComments] drops exactly the comments that are
    resolved and have no quoted content; the threads it returns are, in
    order, the threads of the comments it keeps, a kept comment without
    quoted content getting the empty quoted text; and their anchor
    identifiers are c1..cN in that order. *)
Theorem convertDriveComments_keeps_open_or_quoted :
  forall (comments : list DriveComment),
    (forall c, In c (filter drive_comment_kept comments)
               <-> In c comments
                   /\ ~ (dc_resolved c = true /\ quotedFileContent c = None))
    /\ Forall2 (fun c t => exists index, t = thread_of_comment c index)
               (filter drive_comment_kept comments)
               (convertDriveComments comments)
    /\ (forall c index,
           quotedFileContent c = None ->
           quotedText (thread_of_comment c index) = "")
    /\ (forall c index,
           id (thread_of_comment c index) = dc_id c
           /\ resolved (thread_of_comment c index) = dc_resolved c
           /\ anchorId (thread_of_comment c index) = anchor_of_index index)
    /\ map anchorId (convertDriveComments comments)
       = contiguous_anchors (length (convertDriveComments comments)).
Proof.
  intros comments. unfold convertDriveComments, mapi.
  split; [| split; [| split; [| split]]].
  - intros c. rewrite filter_In, <- drive_comment_dropped.
    destruct (drive_comment_kept c); intuition congruence.
  - apply mapi_from_related.
  - intros c index Hnone. simpl. now rewrite Hnone.
  - intros c index. repeat split.
  - unfold contiguous_anchors.
    now rewrite thread_of_comment_anchors, mapi_from_length.
Qed.

Lemma convertDriveComments_keeps_open_or_quoted_witness :
  In (drive_comment "point" false None) (filter drive_comment_kept drive_comments)
  /\ quotedText (thread_of_comment (drive_comment "point" false None) 0) = ""
  /\ map anchorId (convertDriveComments drive_comments) = ["c1"; "c2"].
Proof.
  destruct (convertDriveComments_keeps_open_or_quoted drive_comments)
    as (Hkept & _ & Hempty & _ & Hanchors).
  split; [| split].
  - apply Hkept. split; [left; reflexivity |]. intros [H _]. discriminate H.
  - apply Hempty. reflexivity.
  - rewrite Hanchors. reflexivity.
Defined.

(* ===================================================================== *)
(** ** The text renderer *)
(* ===================================================================== *)

Lemma join_empty_separator (pieces : list string) :
  JsString.join "" pieces = fold_right String.append "" pieces.
Proof.
  unfold JsString.join.
  induction pieces as [| x [| y rest] IH]; simpl; try reflexivity.
  - now rewrite append_empty_r.
  - simpl in IH. now rewrite IH.
Qed.

Lemma applyTextStyle_cases (text : string) (style : TextStyle) :
  applyTextStyle text style =
  match link_url style with
  | Some target => "[" +++ text +++ "](" +++ target +++ ")"
  | None =>
      match truthy_flag (bold style), truthy_flag (italic style) with
      | true, true => "**_" +++ text +++ "_**"
      | true, false => "**" +++ text +++ "**"
      | false, true => "_" +++ text +++ "_"
      | false, false => text
      end
  end.
Proof.
  unfold applyTextStyle.
  destruct (link_url style); [reflexivity |].
  destruct (truthy_flag (bold style)), (truthy_flag (italic style)); try reflexivity.
  simpl. now rewrite append_assoc.
Qed.

Lemma applyTextStyle_wraps (style : TextStyle) :
  exists before after,
    forall text, applyTextStyle text style = before +++ text +++ after.
Proof.
  destruct (link_url style) as [target |] eqn:Hlink.
  - exists "[", ("](" +++ target +++ ")"). intros text.
    rewrite applyTextStyle_cases, Hlink. reflexivity.
  - destruct (truthy_flag (bold style)) eqn:Hb, (truthy_flag (italic style)) eqn:Hi.
    + exists "**_", "_**". intros. now rewrite applyTextStyle_cases, Hlink, Hb, Hi.
    + exists "**", "**". intros. now rewrite applyTextStyle_cases, Hlink, Hb, Hi.
    + exists "_", "_". intros. now rewrite applyTextStyle_cases, Hlink, Hb, Hi.
    + exists "", "". intros. rewrite applyTextStyle_cases, Hlink, Hb, Hi.
      simpl. now rewrite append_empty_r.
Qed.

(** C8.  [extractTextContent] is the concatenation of the spans as the
    specification renders them: a span with a link URL is a markdown link
    whatever its bold and italic flags; otherwise italic is applied first
    and bold second, so bold and italic together give bold outside and
    italic inside; and the text of a span is placed between its wrappers as
    it is, newlines included. *)
Theorem extractTextContent_renders_each_span :
  forall (spans : list ParagraphElement),
    extractTextContent spans = spec_render_spans spans
    /\ (forall text target b i,
           target <> "" ->
           extractTextContent
             [styled_span text {| bold := b; italic := i;
                                  link := Some {| url := Some target |} |}]
           = "[" +++ text +++ "](" +++ target +++ ")")
    /\ (forall text,
           extractTextContent
             [styled_span text {| bold := Some true; italic := Some true; link := None |}]
           = "**_" +++ text +++ "_**")
    /\ (forall style, exists before after,
           forall text,
             extractTextContent [styled_span text style] = before +++ text +++ after)
    /\ (forall text, extractTextContent [text_span text] = text).
Proof.
  intros spans. split; [| split; [| split; [| split]]].
  - unfold extractTextContent, spec_render_spans.
    rewrite join_empty_separator. f_equal.
    apply map_ext. intros span. unfold spec_render_span.
    destruct (textRun span) as [run |]; [| reflexivity].
    destruct (textStyle run) as [style |]; [| reflexivity].
    apply applyTextStyle_cases.
  - intros text target b i Htarget. unfold extractTextContent. simpl.
    rewrite applyTextStyle_cases. unfold link_url. simpl.
    now rewrite (truthy_nonempty target Htarget).
  - intros text. unfold extractTextContent. simpl.
    now rewrite applyTextStyle_cases.
  - intros style. destruct (applyTextStyle_wraps style) as [before [after H]].
    exists before, after. intros text. unfold extractTextContent. simpl. apply H.
  - reflexivity.
Qed.

Lemma extractTextContent_renders_each_span_witness :
  extractTextContent
    [styled_span "Click" {| bold := Some true; italic := None;
                            link := Some {| url := Some "https://example.com" |} |}]
  = "[Click](https://example.com)".
Proof.
  apply (proj1 (proj2 (extractTextContent_renders_each_span []))).
  discriminate.
Defined.

(* ===================================================================== *)
(** ** The document transformer *)
(* ===================================================================== *)

(** C1, evaluated.  When the quoted text of a thread occurs in two blocks,
    [transformToMarkdown] anchors it in both and writes the blockquote of
    the thread after both: the loop keeps no record of the threads it has
    already placed. *)
Theorem repeated_quote_is_anchored_in_each_block :
  transformToMarkdown surrender_doc surrender_threads =
  markdown_of_lines
    [ "# Test Doc";
      "";
      "First paragraph mentions [surrender]^[c1] here.";
      "";
      "> [c1] **Alice** (a@t.com):";
      "> What does this mean?";
      "";
      "Second paragraph also says [surrender]^[c1] again.";
      "";
      "> [c1] **Alice** (a@t.com):";
      "> What does this mean?" ]
  /\ occurrences "^[c1]" (transformToMarkdown surrender_doc surrender_threads) = 2
  /\ occurrences "> [c1] **Alice**" (transformToMarkdown surrender_doc surrender_threads) = 2.
Proof. vm_compute. repeat split; reflexivity. Qed.

(** C2, evaluated.  [transformToMarkdown] writes the anchor identifier each
    thread comes with: the thread on wordB, first in the input and numbered
    c1, keeps c1 although wordB comes second in the document, and the
    thread on wordA keeps c2. *)
Theorem anchors_keep_their_input_numbers :
  transformToMarkdown word_doc word_threads =
  markdown_of_lines
    [ "# Test Doc";
      "";
      "First paragraph with [wordA]^[c2] in it.";
      "";
      "> [c2] **Alice** (a@t.com):";
      "> On A";
      "";
      "Second paragraph with [wordB]^[c1] in it.";
      "";
      "> [c1] **Bob** (b@t.com):";
      "> On B" ]
  /\ JsString.includes (transformToMarkdown word_doc word_threads) "[wordA]^[c1]" = false
  /\ JsString.includes (transformToMarkdown word_doc word_threads) "[wordB]^[c2]" = false.
Proof. vm_compute. repeat split; reflexivity. Qed.

(* ===================================================================== *)
(** ** The page-filtered transformer *)
(* ===================================================================== *)

(** C4 as stated fails.  A paragraph with a hard page break inside its text
    is a one-page document, but the page estimator puts a block with a page
    break on no page, so the page filter drops it: from page 1 on, the
    filtered markdown is the title alone while the unfiltered markdown has
    the paragraph. *)
Lemma page_filter_drops_the_page_break_block :
  length (estimatePages (body_content split_paragraph_doc) None) = 1
  /\ markdown (transformWithPageFilter split_paragraph_doc [] from_first_page)
     = markdown_of_lines [ "# Test Doc" ]
  /\ transformToMarkdown split_paragraph_doc []
     = markdown_of_lines [ "# Test Doc"; ""; "Hello world" ]
  /\ markdown (transformWithPageFilter split_paragraph_doc [] from_first_page)
     <> transformToMarkdown split_paragraph_doc [].
Proof. vm_compute. repeat split; discriminate. Qed.

(** On a one-page document without page breaks, a thread the renumberer
    drops shifts the numbers behind it: the filtered markdown has c1 where
    the unfiltered markdown has c2. *)
Lemma dropped_thread_shifts_the_numbers :
  length (estimatePages (body_content hello_doc) None) = 1
  /\ markdown (transformWithPageFilter hello_doc point_then_anchored from_first_page)
     = markdown_of_lines
         [ "# Test Doc"; ""; "[Hello]^[c1] world"; "";
           "> [c1] **Bob** (b@t.com):"; "> On Hello" ]
  /\ transformToMarkdown hello_doc point_then_anchored
     = markdown_of_lines
         [ "# Test Doc"; ""; "[Hello]^[c2] world"; "";
           "> [c2] **Bob** (b@t.com):"; "> On Hello" ].
Proof. vm_compute. repeat split; reflexivity. Qed.

(** C4 (as amended).  For a one-page document none of whose blocks carries
    a hard page break, and threads numbered c1..cN in list order whose
    quoted texts are non-empty and occur in the concatenated text of the
    document, the page-filtered transform from page 1 on, with no page
    count, returns the markdown of [transformToMarkdown] on the same
    document and threads. *)
Theorem first_page_filter_of_single_page_document :
  forall (doc : GoogleDocsDocument) (threads : list CommentThread),
    length (estimatePages (body_content doc) None) = 1 ->
    Forall (fun e => hasPageBreak e = false) (body_content doc) ->
    map anchorId threads = contiguous_anchors (length threads) ->
    Forall (fun t => quotedText t <> ""
                     /\ JsString.includes (extractAllText (body_content doc))
                                          (quotedText t) = true)
           threads ->
    markdown (transformWithPageFilter doc threads from_first_page)
    = transformToMarkdown doc threads.
Proof.
  intros doc threads Hone Hplain Hanchors Hquoted.
  unfold transformWithPageFilter, from_first_page. cbv zeta.
  cbn [opt_startPage opt_pageCount opt_charsPerPage or_default markdown].
  rewrite (filterByPageRange_single_page _ None Hone Hplain).
  rewrite (renumbering_contiguous_is_identity _ _ Hanchors Hquoted).
  destruct doc as [t blocks ls]. reflexivity.
Qed.

Lemma first_page_filter_of_single_page_document_witness :
  markdown (transformWithPageFilter (makeDoc greeting_blocks) greeting_threads
                                    from_first_page)
  = transformToMarkdown (makeDoc greeting_blocks) greeting_threads.
Proof.
  apply (first_page_filter_of_single_page_document
           (makeDoc greeting_blocks) greeting_threads).
  - reflexivity.
  - repeat constructor.
  - reflexivity.
  - repeat constructor; discriminate.
Defined.

(* ===================================================================== *)
(** ** More on the page estimator: character counts and placed blocks *)
(* ===================================================================== *)

Lemma skipn_nth_error {A : Type} (l : list A) (s : nat) (x : A) :
  nth_error l s = Some x -> skipn s l = x :: skipn (S s) l.
Proof.
  revert s. induction l as [| a l IH]; intros [| s] H; simpl in *; try discriminate.
  - congruence.
  - now apply IH.
Qed.

Lemma read_slice (l : list StructuralElement) (n s : nat) :
  s + n <= length l ->
  flat_map (fun i => match nth_error l i with Some e => [e] | None => [] end)
           (seq s n)
  = firstn n (skipn s l).
Proof.
  revert s. induction n as [| n IH]; intros s Hs; simpl; [reflexivity |].
  destruct (nth_error l s) as [x |] eqn:Hx.
  - rewrite (skipn_nth_error _ _ _ Hx). simpl. f_equal. apply IH. lia.
  - apply nth_error_None in Hx. lia.
Qed.

Lemma page_elements_slice (l : list StructuralElement) (p : PageBoundary) :
  endElementIndex p <= length l ->
  page_elements l p
  = firstn (endElementIndex p - startElementIndex p) (skipn (startElementIndex p) l).
Proof.
  intros Hp. unfold page_elements.
  destruct (Nat.le_gt_cases (startElementIndex p) (endElementIndex p)) as [Hle | Hgt].
  - apply read_slice. lia.
  - replace (endElementIndex p - startElementIndex p) with 0 by lia. reflexivity.
Qed.

Lemma page_elements_extend (l rest : list StructuralElement) (p : PageBoundary) :
  endElementIndex p <= length l ->
  page_elements (l ++ rest) p = page_elements l p.
Proof.
  intros Hp. unfold page_elements.
  rewrite !flat_map_concat_map. f_equal.
  apply map_ext_in. intros i Hi. apply in_seq in Hi.
  rewrite nth_error_app1 by lia. reflexivity.
Qed.

Lemma page_elements_open (l : list StructuralElement) (s n c : nat) :
  s <= length l ->
  page_elements l {| pageNumber := n; startElementIndex := s;
                     endElementIndex := length l; charCount := c |}
  = skipn s l.
Proof.
  intros Hs. rewrite page_elements_slice by (simpl; lia). simpl.
  apply firstn_all2. rewrite length_skipn. lia.
Qed.

Lemma closed_pages_extend (bound : nat) (done rest : list StructuralElement)
      (ps : list PageBoundary) :
  Forall (fun p => endElementIndex p <= bound) ps ->
  bound <= length done ->
  map (page_elements (done ++ rest)) ps = map (page_elements done) ps.
Proof.
  intros Hall Hb. apply map_ext_in. intros p Hp.
  rewrite Forall_forall in Hall. specialize (Hall p Hp).
  apply page_elements_extend. lia.
Qed.

Lemma counts_pages_extend (bound : nat) (done rest : list StructuralElement)
      (ps : list PageBoundary) :
  Forall (fun p => endElementIndex p <= bound) ps ->
  bound <= length done ->
  Forall (fun p => charCount p = block_chars (page_elements done p)) ps ->
  Forall (fun p => charCount p = block_chars (page_elements (done ++ rest) p)) ps.
Proof.
  intros Hall Hb Hc. rewrite Forall_forall in *. intros p Hp.
  rewrite page_elements_extend by (specialize (Hall p Hp); lia). auto.
Qed.

Lemma block_chars_app (xs ys : list StructuralElement) :
  block_chars (xs ++ ys) = block_chars xs + block_chars ys.
Proof. unfold block_chars. now rewrite map_app, list_sum_app. Qed.

Lemma block_chars_one (e : StructuralElement) :
  block_chars [e] = getElementCharCount e.
Proof. unfold block_chars. simpl. lia. Qed.

Lemma without_page_breaks_snoc (done : list StructuralElement) (e : StructuralElement) :
  without_page_breaks (done ++ [e])
  = without_page_breaks done ++ (if hasPageBreak e then [] else [e]).
Proof.
  unfold without_page_breaks. rewrite filter_app. simpl.
  now destruct (hasPageBreak e).
Qed.

Lemma skipn_snoc {A : Type} (s : nat) (l : list A) (x : A) :
  s <= length l -> skipn s (l ++ [x]) = skipn s l ++ [x].
Proof.
  intros Hs. rewrite skipn_app. replace (s - length l) with 0 by lia. reflexivity.
Qed.

Lemma estimate_counts_init (budget : Z) : estimate_counts budget [] estimate_init.
Proof. constructor; simpl; auto. Qed.

Lemma estimate_step_counts (budget : Z) (done : list StructuralElement)
      (st : EstimateState) (e : StructuralElement) :
  estimate_inv done st ->
  estimate_counts budget done st ->
  estimate_counts budget (done ++ [e]) (estimate_step budget st (length done) e).
Proof.
  intros [_ _ _ Hstart Hfresh Hclosed _ _] [Hcp Hco Hbp Hbo Hblocks].
  pose proof (closed_pages_end _ _ Hclosed) as Hends.
  assert (Hlen : length (done ++ [e]) = length done + 1)
    by (rewrite length_app; reflexivity).
  pose proof (counts_pages_extend _ done [e] _ Hends Hstart Hcp) as Hcp'.
  assert (Hflat : flat_map (page_elements (done ++ [e])) (pages st)
                  = flat_map (page_elements done) (pages st)).
  { rewrite !flat_map_concat_map. f_equal.
    eapply closed_pages_extend; eassumption. }
  unfold estimate_step.
  destruct (hasPageBreak e) eqn:Hpb.
  - destruct ((currentPageStart st <? length done) || (0 <? currentCharCount st)) eqn:Hc.
    + constructor; simpl.
      * apply Forall_app. split; [assumption |]. constructor; [| constructor].
        simpl. rewrite page_elements_extend by (simpl; lia).
        rewrite page_elements_open by assumption. exact Hco.
      * rewrite (@skipn_all2 _ (length done + 1) (done ++ [e])) by (rewrite Hlen; lia). reflexivity.
      * apply Forall_app. split; [assumption |]. constructor; [| constructor].
        simpl. exact Hbo.
      * right. rewrite Hlen. lia.
      * rewrite flat_map_app. simpl. rewrite app_nil_r.
        rewrite page_elements_extend by (simpl; lia).
        rewrite page_elements_open by assumption.
        rewrite (@skipn_all2 _ (length done + 1) (done ++ [e])) by (rewrite Hlen; lia). rewrite app_nil_r.
        rewrite Hflat, Hblocks, without_page_breaks_snoc, Hpb. now rewrite app_nil_r.
    + apply orb_false_iff in Hc as [Hc _]. apply Nat.ltb_ge in Hc.
      assert (Heq : currentPageStart st = length done) by lia.
      constructor; simpl; auto.
      * rewrite (@skipn_all2 _ (length done + 1) (done ++ [e])) by (rewrite Hlen; lia). reflexivity.
      * right. rewrite Hlen. lia.
      * rewrite (@skipn_all2 _ (length done + 1) (done ++ [e])) by (rewrite Hlen; lia). rewrite Hflat.
        rewrite without_page_breaks_snoc, Hpb, <- Hblocks, Heq, skipn_all.
        now rewrite !app_nil_r.
  - cbv zeta.
    destruct ((budget <? Z.of_nat (currentCharCount st + getElementCharCount e))%Z
              && (currentPageStart st <? length done)) eqn:Hc.
    + apply andb_true_iff in Hc as [_ Hc]. apply Nat.ltb_lt in Hc.
      constructor; simpl.
      * apply Forall_app. split; [assumption |]. constructor; [| constructor].
        simpl. rewrite page_elements_extend by (simpl; lia).
        rewrite page_elements_open by assumption. lia.
      * rewrite skipn_snoc, skipn_all by lia. simpl. now rewrite block_chars_one.
      * apply Forall_app. split; [assumption |]. constructor; [| constructor].
        simpl. destruct Hbo as [Hbo | Hbo]; [left; lia | right; exact Hbo].
      * right. lia.
      * rewrite flat_map_app. simpl. rewrite app_nil_r.
        rewrite page_elements_extend by (simpl; lia).
        rewrite page_elements_open by assumption.
        rewrite skipn_snoc, skipn_all by lia. simpl.
        rewrite Hflat, ?app_assoc, Hblocks, without_page_breaks_snoc, Hpb.
        reflexivity.
    + constructor; simpl; auto.
      * rewrite skipn_snoc by assumption.
        rewrite block_chars_app, block_chars_one. lia.
      * apply andb_false_iff in Hc as [Hc | Hc].
        -- left. apply Z.ltb_ge in Hc. exact Hc.
        -- right. apply Nat.ltb_ge in Hc. lia.
      * rewrite skipn_snoc by assumption.
        rewrite Hflat, ?app_assoc, Hblocks, without_page_breaks_snoc, Hpb.
        reflexivity.
Qed.

Lemma estimate_loop_counts (budget : Z) (rest done : list StructuralElement)
      (st : EstimateState) :
  estimate_inv done st ->
  estimate_counts budget done st ->
  estimate_counts budget (done ++ rest) (estimate_loop budget rest (length done) st).
Proof.
  revert done st.
  induction rest as [| e rest IH]; intros done st Hinv Hcounts; simpl.
  - now rewrite app_nil_r.
  - replace (done ++ e :: rest) with ((done ++ [e]) ++ rest)
      by (rewrite <- app_assoc; reflexivity).
    replace (S (length done)) with (length (done ++ [e]))
      by (rewrite length_app; simpl; lia).
    apply IH.
    + now apply estimate_step_inv.
    + now apply estimate_step_counts.
Qed.

(** What [estimatePages] guarantees about character counts and about the
    blocks on its pages. *)
Lemma estimatePages_counts (elements : list StructuralElement) (charsPerPage : option Z) :
  Forall (fun p => charCount p = block_chars (page_elements elements p))
         (estimatePages elements charsPerPage)
  /\ Forall (fun p => (Z.of_nat (charCount p)
                       <= or_default charsPerPage DEFAULT_CHARS_PER_PAGE)%Z
                      \/ endElementIndex p - startElementIndex p <= 1)
            (estimatePages elements charsPerPage)
  /\ flat_map (page_elements elements) (estimatePages elements charsPerPage)
     = without_page_breaks elements.
Proof.
  unfold estimatePages.
  destruct elements as [| e0 rest].
  - split; [| split].
    + constructor; [reflexivity | constructor].
    + constructor; [right; simpl; lia | constructor].
    + reflexivity.
  - cbv zeta. remember (e0 :: rest) as els eqn:Hels.
    assert (Hpos : 0 < length els) by (subst els; simpl; lia).
    clear Hels.
    set (budget := or_default charsPerPage DEFAULT_CHARS_PER_PAGE).
    pose proof (estimate_loop_whole budget els) as Hinv.
    pose proof (estimate_loop_counts budget els [] estimate_init
                  estimate_inv_init (estimate_counts_init budget)) as Hcounts.
    simpl in Hcounts.
    set (st := estimate_loop budget els 0 estimate_init) in *.
    destruct Hinv as [_ _ _ Hstart _ _ _ _].
    destruct Hcounts as [Hcp Hco Hbp Hbo Hblocks].
    destruct ((currentPageStart st <=? length els - 1) || (length (pages st) =? 0)) eqn:Hc.
    + split; [| split].
      * apply Forall_app. split; [assumption |]. constructor; [| constructor].
        simpl. now rewrite page_elements_open.
      * apply Forall_app. split; [assumption |]. constructor; [| constructor].
        simpl. exact Hbo.
      * rewrite flat_map_app. simpl. rewrite app_nil_r.
        now rewrite page_elements_open.
    + apply orb_false_iff in Hc as [Hc _]. apply Nat.leb_gt in Hc.
      split; [assumption | split; [assumption |]].
      rewrite <- Hblocks. rewrite (@skipn_all2 _ (currentPageStart st) els) by lia.
      now rewrite app_nil_r.
Qed.

(** X1.  The [charCount] of every page [estimatePages] returns is the sum
    of [getElementCharCount] over the blocks of its range. *)
Theorem page_charCount_sums_its_blocks :
  forall (elements : list StructuralElement) (charsPerPage : option Z)
         (page : PageBoundary),
    In page (estimatePages elements charsPerPage) ->
    charCount page = block_chars (page_elements elements page).
Proof.
  intros elements charsPerPage page Hin.
  destruct (estimatePages_counts elements charsPerPage) as [Hsum _].
  rewrite Forall_forall in Hsum. now apply Hsum.
Qed.

Lemma page_charCount_sums_its_blocks_witness :
  block_chars (page_elements break_example
                 {| pageNumber := 2; startElementIndex := 2; endElementIndex := 3;
                    charCount := 11 |}) = 11.
Proof.
  symmetry.
  apply (page_charCount_sums_its_blocks break_example None
           {| pageNumber := 2; startElementIndex := 2; endElementIndex := 3;
              charCount := 11 |}).
  right. left. reflexivity.
Defined.

(** X2.  A page of [estimatePages] whose character count exceeds the budget
    holds at most one block: only a single oversized block goes over. *)
Theorem page_over_budget_holds_one_block :
  forall (elements : list StructuralElement) (charsPerPage : option Z)
         (page : PageBoundary),
    In page (estimatePages elements charsPerPage) ->
    (or_default charsPerPage DEFAULT_CHARS_PER_PAGE < Z.of_nat (charCount page))%Z ->
    endElementIndex page - startElementIndex page <= 1.
Proof.
  intros elements charsPerPage page Hin Hover.
  destruct (estimatePages_counts elements charsPerPage) as [_ [Hbudget _]].
  rewrite Forall_forall in Hbudget. destruct (Hbudget page Hin); [lia | assumption].
Qed.

Lemma page_over_budget_holds_one_block_witness :
  endElementIndex {| pageNumber := 1; startElementIndex := 0; endElementIndex := 1;
                     charCount := 12 |}
  - startElementIndex {| pageNumber := 1; startElementIndex := 0; endElementIndex := 1;
                         charCount := 12 |} <= 1.
Proof.
  apply (page_over_budget_holds_one_block
           [text_block "Hello world."; text_block "Hello again."] (Some 5%Z)).
  - left. reflexivity.
  - simpl. lia.
Defined.

(* ===================================================================== *)
(** ** More on the page filter *)
(* ===================================================================== *)

Lemma select_all_pages (ps : list PageBoundary) (lo hi : Z) :
  numbered_from_one ps ->
  (lo <= 1)%Z ->
  (Z.of_nat (length ps) <= hi)%Z ->
  filter (fun p => (lo <=? Z.of_nat (pageNumber p))%Z
                   && (Z.of_nat (pageNumber p) <=? hi)%Z) ps = ps.
Proof.
  intros Hnum Hlo Hhi. apply filter_all. rewrite Forall_forall. intros p Hp.
  pose proof (numbered_members _ _ Hnum Hp) as Hrange.
  apply andb_true_iff. split; apply Z.leb_le; lia.
Qed.

(** X3.  Asking [filterByPageRange] for everything (a start of 1 or less,
    and no page count or one that reaches the last page) returns the
    document without its page-break blocks, in document order. *)
Theorem filterByPageRange_everything :
  forall (elements : list StructuralElement) (requested : Z)
         (pageCount charsPerPage : option Z),
    (requested <= 1)%Z ->
    (forall count, pageCount = Some count ->
                   (Z.of_nat (length (estimatePages elements charsPerPage)) <= count)%Z) ->
    fr_elements (filterByPageRange elements requested pageCount charsPerPage)
    = without_page_breaks elements.
Proof.
  intros elements requested pageCount charsPerPage Hreq Hcount.
  destruct (estimatePages_post elements charsPerPage) as [Hsome Hnum _ _ _ _].
  destruct (estimatePages_counts elements charsPerPage) as [_ [_ Hblocks]].
  unfold filterByPageRange. cbv zeta. simpl fr_elements.
  set (pages := estimatePages elements charsPerPage) in *.
  assert (Htotal : (1 <= Z.of_nat (length pages))%Z)
    by (destruct pages; [congruence | simpl length; lia]).
  rewrite select_all_pages; [exact Hblocks | exact Hnum | lia |].
  destruct pageCount as [count |]; [| lia].
  specialize (Hcount count eq_refl). lia.
Qed.

Lemma filterByPageRange_everything_witness :
  fr_elements (filterByPageRange break_example (-3) (Some 10%Z) None)
  = [text_block "Before break"; text_block "After break"].
Proof.
  apply (filterByPageRange_everything break_example (-3) (Some 10%Z) None).
  - lia.
  - intros count Hcount. injection Hcount as <-. vm_compute. discriminate.
Defined.

Lemma split_numbered_pages (ps : list PageBoundary) (first : nat) (k : Z) :
  map pageNumber ps = seq first (length ps) ->
  filter (fun p => (Z.of_nat (pageNumber p) <=? k)%Z) ps
  ++ filter (fun p => (k <? Z.of_nat (pageNumber p))%Z) ps = ps.
Proof.
  revert first. induction ps as [| p ps IH]; intros first Hnum; [reflexivity |].
  simpl in Hnum. injection Hnum as Hp Hrest.
  destruct (Z.leb_spec (Z.of_nat (pageNumber p)) k) as [Hle | Hgt].
  - simpl.
    replace (Z.of_nat (pageNumber p) <=? k)%Z with true by (symmetry; apply Z.leb_le; lia).
    replace (k <? Z.of_nat (pageNumber p))%Z with false by (symmetry; apply Z.ltb_ge; lia).
    simpl. f_equal. now apply (IH (S first)).
  - assert (Hall : forall q, In q (p :: ps) -> (k < Z.of_nat (pageNumber q))%Z).
    { intros q [<- | Hq]; [exact Hgt |].
      apply (in_map pageNumber) in Hq. rewrite Hrest in Hq.
      apply in_seq in Hq. lia. }
    rewrite filter_none, filter_all; [reflexivity | |].
    + rewrite Forall_forall. intros q Hq. apply Z.ltb_lt. now apply Hall.
    + intros q Hq. apply Z.leb_gt. now apply Hall.
Qed.

(** X4.  The first [k] pages followed by the pages from [k + 1] on are the
    whole document without its page-break blocks: [filterByPageRange]
    splits the document at a page boundary, losing and repeating
    nothing. *)
Theorem filterByPageRange_splits_at_page :
  forall (elements : list StructuralElement) (k : Z) (charsPerPage : option Z),
    (1 <= k < Z.of_nat (length (estimatePages elements charsPerPage)))%Z ->
    fr_elements (filterByPageRange elements 1 (Some k) charsPerPage)
    ++ fr_elements (filterByPageRange elements (k + 1) None charsPerPage)
    = without_page_breaks elements.
Proof.
  intros elements k charsPerPage Hk.
  destruct (estimatePages_post elements charsPerPage) as [_ Hnum _ _ _ _].
  destruct (estimatePages_counts elements charsPerPage) as [_ [_ Hblocks]].
  unfold filterByPageRange. cbv zeta. simpl fr_elements.
  set (pages := estimatePages elements charsPerPage) in *.
  rewrite <- flat_map_app, <- Hblocks. f_equal.
  rewrite <- (split_numbered_pages pages 1 k Hnum) at 3.
  f_equal; apply filter_ext_in; intros p Hp;
    pose proof (numbered_members _ _ Hnum Hp) as Hrange.
  - replace (Z.min (Z.max 1 1) (Z.of_nat (length pages))) with 1%Z by lia.
    replace (Z.min (1 + k - 1) (Z.of_nat (length pages))) with k by lia.
    replace (1 <=? Z.of_nat (pageNumber p))%Z with true
      by (symmetry; apply Z.leb_le; lia).
    reflexivity.
  - replace (Z.min (Z.max 1 (k + 1)) (Z.of_nat (length pages))) with (k + 1)%Z by lia.
    replace (Z.of_nat (pageNumber p) <=? Z.of_nat (length pages))%Z with true
      by (symmetry; apply Z.leb_le; lia).
    rewrite andb_true_r.
    destruct (Z.leb_spec (k + 1) (Z.of_nat (pageNumber p)));
      destruct (Z.ltb_spec k (Z.of_nat (pageNumber p))); try reflexivity; lia.
Qed.

Lemma filterByPageRange_splits_at_page_witness :
  fr_elements (filterByPageRange six_paragraphs 1 (Some 1%Z) None)
  ++ fr_elements (filterByPageRange six_paragraphs (1 + 1) None None)
  = without_page_breaks six_paragraphs.
Proof.
  apply (filterByPageRange_splits_at_page six_paragraphs 1 None).
  vm_compute. split; [discriminate | reflexivity].
Defined.

Lemma subsequence_refl {A : Type} (l : list A) : subsequence l l.
Proof. induction l; constructor; assumption. Qed.

Lemma subsequence_nil_l {A : Type} (l : list A) : subsequence [] l.
Proof. induction l; constructor; assumption. Qed.

Lemma subsequence_app {A : Type} (xs ys xs' ys' : list A) :
  subsequence xs ys -> subsequence xs' ys' -> subsequence (xs ++ xs') (ys ++ ys').
Proof.
  intros H H'. induction H; simpl; try constructor; assumption.
Qed.

Lemma subsequence_trans {A : Type} (xs ys zs : list A) :
  subsequence xs ys -> subsequence ys zs -> subsequence xs zs.
Proof.
  intros Hxy Hyz. revert xs Hxy.
  induction Hyz as [| ys z zs _ IH | y ys zs _ IH]; intros xs Hxy.
  - assumption.
  - constructor. now apply IH.
  - inversion Hxy; subst.
    + apply subsequence_skip. now apply IH.
    + apply subsequence_keep. now apply IH.
Qed.

Lemma subsequence_filter {A : Type} (f : A -> bool) (l : list A) :
  subsequence (filter f l) l.
Proof.
  induction l as [| x l IH]; simpl; [constructor |].
  destruct (f x); constructor; assumption.
Qed.

Lemma subsequence_flat_map_filter {A B : Type} (g : A -> list B) (f : A -> bool)
      (l : list A) :
  subsequence (flat_map g (filter f l)) (flat_map g l).
Proof.
  induction l as [| x l IH]; simpl; [constructor |].
  destruct (f x); simpl.
  - apply subsequence_app; [apply subsequence_refl | assumption].
  - apply (subsequence_app [] (g x)); [apply subsequence_nil_l | assumption].
Qed.

Lemma subsequence_In {A : Type} (xs ys : list A) (x : A) :
  subsequence xs ys -> In x xs -> In x ys.
Proof.
  induction 1; simpl; intros Hin; auto.
  destruct Hin; auto.
Qed.

(** X5.  Whatever page range is asked for, [filterByPageRange] returns
    blocks of the document in document order, never a block with a hard
    page break and no block of the document more than once: its result is
    a subsequence of the document without its page-break blocks. *)
Theorem filterByPageRange_keeps_document_order :
  forall (elements : list StructuralElement) (requested : Z)
         (pageCount charsPerPage : option Z),
    subsequence
      (fr_elements (filterByPageRange elements requested pageCount charsPerPage))
      (without_page_breaks elements)
    /\ subsequence
         (fr_elements (filterByPageRange elements requested pageCount charsPerPage))
         elements
    /\ Forall (fun e => hasPageBreak e = false)
              (fr_elements (filterByPageRange elements requested pageCount charsPerPage)).
Proof.
  intros elements requested pageCount charsPerPage.
  destruct (estimatePages_counts elements charsPerPage) as [_ [_ Hblocks]].
  assert (Hsub : subsequence
            (fr_elements (filterByPageRange elements requested pageCount charsPerPage))
            (without_page_breaks elements)).
  { unfold filterByPageRange. cbv zeta. simpl fr_elements.
    rewrite <- Hblocks. apply subsequence_flat_map_filter. }
  split; [exact Hsub |]. split.
  - eapply subsequence_trans; [exact Hsub |]. apply subsequence_filter.
  - rewrite Forall_forall. intros e He.
    apply (subsequence_In _ _ _ Hsub) in He.
    apply filter_In in He as [_ He]. now apply negb_true_iff in He.
Qed.

(* ===================================================================== *)
(** ** More on the thread filter and renumberer *)
(* ===================================================================== *)

Lemma renumbered_keeps_quote (threads : list CommentThread) (k : nat) (f : string -> bool) :
  Forall (fun t => f (quotedText t) = true) threads ->
  Forall (fun t => f (quotedText t) = true) (mapi_from renumbered k threads).
Proof.
  intros H. revert k. induction H as [| t threads Ht _ IH]; intros k; simpl;
    constructor; auto.
Qed.

Lemma filter_satisfies {A : Type} (f : A -> bool) (l : list A) :
  Forall (fun x => f x = true) (filter f l).
Proof.
  rewrite Forall_forall. intros x Hx. now apply filter_In in Hx.
Qed.

(** X6.  [filterAndRenumberThreads] is idempotent: filtering and
    renumbering its own result against the same blocks changes nothing. *)
Theorem filterAndRenumberThreads_idempotent :
  forall (threads : list CommentThread) (elements : list StructuralElement),
    filterAndRenumberThreads (filterAndRenumberThreads threads elements) elements
    = filterAndRenumberThreads threads elements.
Proof.
  intros threads elements.
  set (once := filterAndRenumberThreads threads elements).
  unfold filterAndRenumberThreads at 1. cbv zeta. unfold mapi.
  rewrite filter_all.
  - apply renumbered_fixed. apply filterAndRenumberThreads_anchors.
  - unfold once, filterAndRenumberThreads, mapi. cbv zeta.
    apply (renumbered_keeps_quote _ 0
             (fun q => JsString.truthy q
                       && JsString.includes (extractAllText elements) q)).
    apply (filter_satisfies (quoted_in (extractAllText elements))).
Qed.

Lemma includes_empty_text (q : string) :
  JsString.truthy q = true -> JsString.includes "" q = false.
Proof. destruct q; [discriminate | reflexivity]. Qed.

Lemma mapi_from_In {A B : Type} (f : A -> nat -> B) (k : nat) (xs : list A) (y : B) :
  In y (mapi_from f k xs) -> exists x index, In x xs /\ y = f x index.
Proof.
  revert k. induction xs as [| x xs IH]; intros k; simpl; [tauto |].
  intros [<- | Hin].
  - exists x, k. auto.
  - destruct (IH _ Hin) as [x' [index [Hx' ->]]]. exists x', index. auto.
Qed.

(** X7.  [filterAndRenumberThreads] keeps a thread only for a non-empty
    quoted text that occurs in the concatenated text of the blocks: a
    thread without quoted text never survives, no thread survives an empty
    block list, and every survivor is one of the given threads with only
    its anchor identifier replaced. *)
Theorem filterAndRenumberThreads_survivors :
  forall (threads : list CommentThread) (elements : list StructuralElement),
    filterAndRenumberThreads threads [] = []
    /\ length (filterAndRenumberThreads threads elements) <= length threads
    /\ (forall t, In t (filterAndRenumberThreads threads elements) ->
                  quotedText t <> ""
                  /\ (exists before after,
                         extractAllText elements = before +++ quotedText t +++ after)
                  /\ exists original index,
                       In original threads /\ t = renumbered original index).
Proof.
  intros threads elements. split; [| split].
  - unfold filterAndRenumberThreads, mapi. cbv zeta.
    rewrite filter_none; [reflexivity |].
    intros t _. unfold quoted_in.
    destruct (JsString.truthy (quotedText t)) eqn:Hq; [| reflexivity].
    simpl. now apply includes_empty_text.
  - unfold filterAndRenumberThreads, mapi. cbv zeta.
    rewrite mapi_from_length. apply filter_length_le.
  - intros t Hin. unfold filterAndRenumberThreads, mapi in Hin. cbv zeta in Hin.
    apply mapi_from_In in Hin as [original [index [Horig ->]]].
    apply filter_In in Horig as [Horig Hquoted].
    unfold quoted_in in Hquoted. apply andb_true_iff in Hquoted as [Htruthy Hincl].
    simpl. repeat split.
    + intros Hempty. rewrite Hempty in Htruthy. discriminate.
    + now apply includes_iff.
    + exists original, index. auto.
Qed.

Lemma filterAndRenumberThreads_survivors_witness :
  quotedText (renumbered (makeThread "2" "c2" "Goodbye" "Alice" "alice@test.com" "Comment") 0)
  <> "".
Proof.
  apply (filterAndRenumberThreads_survivors
           [makeThread "1" "c1" "" "Alice" "alice@test.com" "Comment";
            makeThread "2" "c2" "Goodbye" "Alice" "alice@test.com" "Comment"]
           greeting_blocks).
  left. reflexivity.
Defined.

(* ===================================================================== *)
(** ** Anchor identifiers are distinct *)
(* ===================================================================== *)

Lemma to_uint_nonnil (n : nat) : Nat.to_uint n <> Decimal.Nil.
Proof.
  rewrite <- (DecimalNat.Unsigned.of_to n) at 1.
  rewrite DecimalNat.Unsigned.to_of. apply DecimalFacts.unorm_nonnil.
Qed.

Lemma of_nat_injective (m n : nat) : JsString.of_nat m = JsString.of_nat n -> m = n.
Proof.
  unfold JsString.of_nat. intros H.
  apply DecimalNat.Unsigned.to_uint_inj.
  pose proof (NilZero.usu (Nat.to_uint m) (to_uint_nonnil m)) as Hm.
  pose proof (NilZero.usu (Nat.to_uint n) (to_uint_nonnil n)) as Hn.
  rewrite H in Hm. congruence.
Qed.

Lemma anchor_of_index_injective (i j : nat) :
  anchor_of_index i = anchor_of_index j -> i = j.
Proof.
  unfold anchor_of_index. simpl. intros H. injection H as H.
  apply of_nat_injective in H. lia.
Qed.

Lemma contiguous_anchors_distinct (n : nat) : NoDup (contiguous_anchors n).
Proof.
  unfold contiguous_anchors.
  apply Finite.Injective_map_NoDup; [| apply seq_NoDup].
  intros i j. apply anchor_of_index_injective.
Qed.

(** X8.  The anchor identifiers that [convertDriveComments] and
    [filterAndRenumberThreads] assign are pairwise distinct, and their
    number is the number of threads returned. *)
Theorem assigned_anchors_are_distinct :
  forall (comments : list DriveComment) (threads : list CommentThread)
         (elements : list StructuralElement),
    NoDup (map anchorId (convertDriveComments comments))
    /\ NoDup (map anchorId (filterAndRenumberThreads threads elements)).
Proof.
  intros comments threads elements. split.
  - unfold convertDriveComments, mapi.
    rewrite thread_of_comment_anchors. apply contiguous_anchors_distinct.
  - rewrite filterAndRenumberThreads_anchors. apply contiguous_anchors_distinct.
Qed.

(* ===================================================================== *)
(** ** The shape of the markdown *)
(* ===================================================================== *)

Lemma prefix_empty (s : string) : String.prefix "" s = true.
Proof. now destruct s. Qed.

Lemma runs_below_three_suffix (before rest : string) (run : nat) :
  runs_below_three run (before +++ rest) = true ->
  exists run', runs_below_three run' rest = true.
Proof.
  revert run. induction before as [| c before IH]; intros run H; simpl in H.
  - now exists run.
  - destruct (Ascii.eqb c JsString.newline).
    + apply andb_true_iff in H as [_ H]. eauto.
    + eauto.
Qed.

(** A string whose newline runs stay below three does not contain three
    newlines in a row. *)
Lemma runs_below_three_sound (s : string) :
  runs_below_three 0 s = true -> JsString.includes s blank_run = false.
Proof.
  intros H. destruct (JsString.includes s blank_run) eqn:Hin; [| reflexivity].
  apply includes_iff in Hin as [before [after ->]].
  apply runs_below_three_suffix in H as [run H].
  unfold blank_run in H. simpl in H.
  destruct run as [| [| run]]; simpl in H; discriminate.
Qed.

Lemma runs_below_three_newlines (k : nat) (c : ascii) (rest : string) :
  k <= 2 ->
  Ascii.eqb c JsString.newline = false ->
  runs_below_three 0 (JsString.repeat JsString.NL k +++ String c rest)
  = runs_below_three 0 rest.
Proof.
  intros Hk Hc.
  destruct k as [| [| [| k]]]; try lia; simpl; now rewrite Hc.
Qed.

Lemma collapse_newlines_runs (s : string) (run : nat) :
  runs_below_three 0 (JsString.collapse_newlines run s) = true.
Proof.
  revert run. induction s as [| c s IH]; intros run; simpl.
  - destruct run as [| [| [| run]]]; reflexivity.
  - destruct (Ascii.eqb c JsString.newline) eqn:Hc.
    + apply IH.
    + rewrite runs_below_three_newlines; [apply IH | lia | exact Hc].
Qed.

Lemma trimEnd_cons (c : ascii) (rest : string) :
  JsString.trimEnd (String c rest) =
  match JsString.trimEnd rest with
  | EmptyString =>
      if JsString.is_whitespace c then EmptyString else String c EmptyString
  | String d kept => String c (String d kept)
  end.
Proof. reflexivity. Qed.

Lemma newline_is_whitespace (c : ascii) :
  Ascii.eqb c JsString.newline = true -> JsString.is_whitespace c = true.
Proof. intros H. apply Ascii.eqb_eq in H. now subst c. Qed.

Lemma trimEnd_runs (s : string) (run : nat) :
  runs_below_three run s = true ->
  runs_below_three run (JsString.trimEnd s) = true.
Proof.
  revert run. induction s as [| c s IH]; intros run H; [reflexivity |].
  rewrite trimEnd_cons. simpl in H.
  destruct (JsString.trimEnd s) as [| d kept] eqn:Hkept.
  - destruct (JsString.is_whitespace c) eqn:Hws; [reflexivity |].
    simpl. destruct (Ascii.eqb c JsString.newline) eqn:Hc; [| reflexivity].
    apply newline_is_whitespace in Hc. congruence.
  - change (runs_below_three run (String c (String d kept)))
      with (if Ascii.eqb c JsString.newline
            then (S run <? 3) && runs_below_three (S run) (String d kept)
            else runs_below_three 0 (String d kept)).
    destruct (Ascii.eqb c JsString.newline).
    + apply andb_true_iff in H as [Hrun H]. rewrite Hrun. simpl. now apply IH.
    + now apply IH.
Qed.

Lemma trimEnd_then_newline_runs (s : string) (run : nat) :
  runs_below_three run (JsString.trimEnd s) = true ->
  JsString.trimEnd s <> "" ->
  runs_below_three run (JsString.trimEnd s +++ JsString.NL) = true.
Proof.
  revert run. induction s as [| c s IH]; intros run H Hne; [now elim Hne |].
  rewrite trimEnd_cons in *.
  destruct (JsString.trimEnd s) as [| d kept] eqn:Hkept.
  - destruct (JsString.is_whitespace c) eqn:Hws; [now elim Hne |].
    simpl. destruct (Ascii.eqb c JsString.newline) eqn:Hc; [| reflexivity].
    apply newline_is_whitespace in Hc. congruence.
  - change (runs_below_three run (String c (String d kept)))
      with (if Ascii.eqb c JsString.newline
            then (S run <? 3) && runs_below_three (S run) (String d kept)
            else runs_below_three 0 (String d kept)) in H.
    change (runs_below_three run (String c (String d kept) +++ JsString.NL))
      with (if Ascii.eqb c JsString.newline
            then (S run <? 3) && runs_below_three (S run) (String d kept +++ JsString.NL)
            else runs_below_three 0 (String d kept +++ JsString.NL)).
    destruct (Ascii.eqb c JsString.newline).
    + apply andb_true_iff in H as [Hrun H]. rewrite Hrun. simpl.
      apply IH; [assumption | discriminate].
    + apply IH; [assumption | discriminate].
Qed.

Lemma trimEnd_idempotent (s : string) :
  JsString.trimEnd (JsString.trimEnd s) = JsString.trimEnd s.
Proof.
  induction s as [| c s IH]; [reflexivity |].
  rewrite trimEnd_cons.
  destruct (JsString.trimEnd s) as [| d kept] eqn:Hkept.
  - destruct (JsString.is_whitespace c) eqn:Hws; [reflexivity |].
    simpl. now rewrite Hws.
  - rewrite trimEnd_cons, IH. reflexivity.
Qed.

(** X9.  Whatever the document and the threads, the markdown of
    [transformToMarkdown] ends in exactly one newline with no white space in
    front of it, and nowhere has three newlines in a row (at most one blank
    line between two lines). *)
Theorem transformToMarkdown_is_tidy :
  forall (doc : GoogleDocsDocument) (threads : list CommentThread),
    (exists body,
        transformToMarkdown doc threads = body +++ JsString.NL
        /\ JsString.trimEnd body = body)
    /\ JsString.includes (transformToMarkdown doc threads) blank_run = false.
Proof.
  intros doc threads. unfold transformToMarkdown. cbv zeta.
  set (joined := JsString.join JsString.NL _).
  split.
  - exists (JsString.trimEnd (JsString.collapse_newlines 0 joined)).
    split; [reflexivity | apply trimEnd_idempotent].
  - apply runs_below_three_sound.
    pose proof (trimEnd_runs _ 0 (collapse_newlines_runs joined 0)) as Hruns.
    destruct (JsString.trimEnd (JsString.collapse_newlines 0 joined)) eqn:Htrim.
    + reflexivity.
    + rewrite <- Htrim in *. apply trimEnd_then_newline_runs; [assumption |].
      rewrite Htrim. discriminate.
Qed.

(* ===================================================================== *)
(** ** The thread formatter *)
(* ===================================================================== *)

Lemma includes_newline_cons (c : ascii) (s : string) :
  JsString.includes (String c s) JsString.NL
  = Ascii.eqb c JsString.newline || JsString.includes s JsString.NL.
Proof.
  rewrite includes_unfold.
  change (String.prefix JsString.NL (String c s))
    with (if ascii_dec JsString.newline c then String.prefix "" s else false).
  destruct (ascii_dec JsString.newline c) as [<- | Hne].
  - rewrite prefix_empty, Ascii.eqb_refl. reflexivity.
  - replace (Ascii.eqb c JsString.newline) with false; [reflexivity |].
    symmetry. apply Ascii.eqb_neq. congruence.
Qed.

Lemma single_line_cons (c : ascii) (s : string) :
  single_line (String c s) = negb (Ascii.eqb c JsString.newline) && single_line s.
Proof. unfold single_line. now rewrite includes_newline_cons, negb_orb. Qed.

Lemma single_line_app (a b : string) :
  single_line (a +++ b) = single_line a && single_line b.
Proof.
  induction a as [| c a IH]; simpl.
  - now destruct (single_line b).
  - now rewrite !single_line_cons, IH, andb_assoc.
Qed.

Lemma split_lines_nonempty (s : string) : JsString.split_lines s <> [].
Proof.
  induction s as [| c s IH]; simpl; [discriminate |].
  destruct (Ascii.eqb c JsString.newline); [discriminate |].
  destruct (JsString.split_lines s); discriminate.
Qed.

Lemma split_lines_single (s : string) :
  single_line s = true -> JsString.split_lines s = [s].
Proof.
  induction s as [| c s IH]; intros H; [reflexivity |].
  rewrite single_line_cons in H. apply andb_true_iff in H as [Hc Hs].
  apply negb_true_iff in Hc. simpl. rewrite Hc, (IH Hs). reflexivity.
Qed.

Lemma split_lines_at_newline (a b : string) :
  JsString.split_lines (a +++ String JsString.newline b)
  = JsString.split_lines a ++ JsString.split_lines b.
Proof.
  induction a as [| c a IH]; simpl.
  - reflexivity.
  - destruct (Ascii.eqb c JsString.newline).
    + now rewrite IH.
    + rewrite IH.
      destruct (JsString.split_lines a) as [| piece pieces] eqn:Ha; [| reflexivity].
      now apply split_lines_nonempty in Ha.
Qed.

Lemma split_lines_append (a b : string) :
  JsString.split_lines (a +++ JsString.NL +++ b)
  = JsString.split_lines a ++ JsString.split_lines b.
Proof. exact (split_lines_at_newline a b). Qed.

Lemma split_lines_pieces (s : string) :
  Forall (fun piece => single_line piece = true) (JsString.split_lines s).
Proof.
  induction s as [| c s IH]; simpl; [repeat constructor |].
  destruct (Ascii.eqb c JsString.newline) eqn:Hc.
  - constructor; [reflexivity | assumption].
  - destruct (JsString.split_lines s) as [| piece pieces]; [repeat constructor |].
    + rewrite single_line_cons, Hc. reflexivity.
    + inversion IH; subst. constructor; [| assumption].
      rewrite single_line_cons, Hc. simpl. assumption.
Qed.

(** Joining single lines with newlines and splitting again gives the lines
    back. *)
Lemma split_lines_join (pieces : list string) :
  pieces <> [] ->
  Forall (fun piece => single_line piece = true) pieces ->
  JsString.split_lines (JsString.join JsString.NL pieces) = pieces.
Proof.
  induction pieces as [| x [| y rest] IH]; intros Hne Hall.
  - now elim Hne.
  - simpl. apply split_lines_single. now inversion Hall.
  - change (JsString.join JsString.NL (x :: y :: rest))
      with (x +++ JsString.NL +++ JsString.join JsString.NL (y :: rest)).
    rewrite split_lines_append, IH; [| discriminate | now inversion Hall].
    rewrite split_lines_single by now inversion Hall. reflexivity.
Qed.

(** Splitting a string at its newlines and joining the pieces gives the
    string back. *)
Lemma join_split_lines (s : string) :
  JsString.join JsString.NL (JsString.split_lines s) = s.
Proof.
  induction s as [| c s IH]; [reflexivity |].
  simpl. destruct (Ascii.eqb c JsString.newline) eqn:Hc.
  - apply Ascii.eqb_eq in Hc. subst c.
    destruct (JsString.split_lines s) as [| piece pieces] eqn:Hs;
      [now apply split_lines_nonempty in Hs |].
    change (JsString.join JsString.NL ("" :: piece :: pieces))
      with ("" +++ JsString.NL +++ JsString.join JsString.NL (piece :: pieces)).
    now rewrite IH.
  - destruct (JsString.split_lines s) as [| piece pieces] eqn:Hs;
      [now apply split_lines_nonempty in Hs |].
    rewrite <- IH. destruct pieces; reflexivity.
Qed.

Lemma quoted_lines (content : string) :
  JsString.split_lines
    (JsString.join JsString.NL
       (map (fun line => "> " +++ line) (JsString.split_lines content)))
  = map (fun line => "> " +++ line) (JsString.split_lines content).
Proof.
  apply split_lines_join.
  - intros H. apply map_eq_nil in H. now apply split_lines_nonempty in H.
  - apply Forall_map. eapply Forall_impl; [| apply split_lines_pieces].
    intros piece Hpiece. simpl. rewrite !single_line_cons, Hpiece. reflexivity.
Qed.

Lemma separated_blocks_lines (P : string -> Prop) (blocks : list string) :
  P ">" ->
  blocks <> [] ->
  Forall (fun block => Forall P (JsString.split_lines block)) blocks ->
  Forall P (JsString.split_lines
              (JsString.join (JsString.NL +++ ">" +++ JsString.NL) blocks)).
Proof.
  intros Hsep.
  induction blocks as [| x [| y rest] IH]; intros Hne Hall.
  - now elim Hne.
  - simpl. now inversion Hall.
  - change (JsString.join (JsString.NL +++ ">" +++ JsString.NL) (x :: y :: rest))
      with (x +++ JsString.NL +++ ">" +++ JsString.NL
              +++ JsString.join (JsString.NL +++ ">" +++ JsString.NL) (y :: rest)).
    rewrite split_lines_append, (split_lines_append ">").
    inversion Hall; subst.
    apply Forall_app. split; [assumption |].
    apply Forall_app. split; [repeat constructor; assumption |].
    apply IH; [discriminate | assumption].
Qed.

(** X10.  For a thread with at least one comment whose anchor identifier,
    author names and author emails have no newline in them,
    [formatCommentThread] gives a blockquote: every line of its result
    starts with [>], whatever newlines the comment texts contain. *)
Theorem formatCommentThread_is_a_blockquote :
  forall (thread : CommentThread),
    comments thread <> [] ->
    single_line (anchorId thread) = true ->
    Forall (fun comment => single_line (authorName comment) = true
                           /\ single_line (authorEmail comment) = true)
           (comments thread) ->
    Forall (fun line => String.prefix ">" line = true)
           (JsString.split_lines (formatCommentThread thread)).
Proof.
  intros thread Hsome Hanchor Hauthors. unfold formatCommentThread. cbv zeta.
  set (label := if resolved thread then anchorId thread +++ " resolved"
                else anchorId thread).
  assert (Hlabel : single_line label = true).
  { unfold label. destruct (resolved thread); [| assumption].
    rewrite single_line_app, Hanchor. reflexivity. }
  apply separated_blocks_lines.
  - reflexivity.
  - intros H. apply map_eq_nil in H. contradiction.
  - apply Forall_map. eapply Forall_impl; [| exact Hauthors].
    intros comment [Hname Hemail]. cbv beta.
    rewrite split_lines_append, quoted_lines.
    apply Forall_app. split.
    + rewrite split_lines_single.
      * constructor; [reflexivity | constructor].
      * rewrite !single_line_app, Hlabel, Hname, Hemail. reflexivity.
    + apply Forall_map. rewrite Forall_forall. intros line _. reflexivity.
Qed.

Lemma formatCommentThread_is_a_blockquote_witness :
  Forall (fun line => String.prefix ">" line = true)
         (JsString.split_lines (formatCommentThread review_thread)).
Proof.
  apply (formatCommentThread_is_a_blockquote review_thread).
  - discriminate.
  - reflexivity.
  - repeat constructor.
Defined.

Lemma drop_quote_prefix (pieces : list string) :
  map (JsString.drop 2) (map (fun line => "> " +++ line) pieces) = pieces.
Proof.
  rewrite map_map. rewrite <- (map_id pieces) at 2. apply map_ext. reflexivity.
Qed.

(** X11.  For a thread with one comment and a one-line header,
    [formatCommentThread] writes the header line followed by the lines of
    the comment text, each behind [> ]; taking that prefix off the lines
    after the header and joining them gives the comment text back,
    embedded newlines included. *)
Theorem formatCommentThread_keeps_the_text :
  forall (thread : CommentThread) (comment : ThreadComment),
    comments thread = [comment] ->
    single_line (comment_header thread comment) = true ->
    JsString.split_lines (formatCommentThread thread)
    = comment_header thread comment
      :: map (fun line => "> " +++ line) (JsString.split_lines (tc_content comment))
    /\ JsString.join JsString.NL
         (map (JsString.drop 2) (tl (JsString.split_lines (formatCommentThread thread))))
       = tc_content comment.
Proof.
  intros thread comment Hone Hheader.
  assert (Hlines :
            JsString.split_lines (formatCommentThread thread)
            = comment_header thread comment
              :: map (fun line => "> " +++ line)
                     (JsString.split_lines (tc_content comment))).
  { unfold formatCommentThread. cbv zeta. rewrite Hone.
    change (JsString.split_lines
              (comment_header thread comment +++ JsString.NL
               +++ JsString.join JsString.NL
                     (map (fun line => "> " +++ line)
                          (JsString.split_lines (tc_content comment))))
            = comment_header thread comment
              :: map (fun line => "> " +++ line)
                     (JsString.split_lines (tc_content comment))).
    rewrite split_lines_append, quoted_lines, split_lines_single by assumption.
    reflexivity. }
  split; [exact Hlines |].
  rewrite Hlines. simpl tl. rewrite drop_quote_prefix. apply join_split_lines.
Qed.

Lemma formatCommentThread_keeps_the_text_witness :
  JsString.join JsString.NL
    (map (JsString.drop 2)
         (tl (JsString.split_lines
                (formatCommentThread
                   (makeThread "1" "c2" "text" "Alice" "alice@example.com"
                               ("Line 1" +++ JsString.NL +++ "Line 2"))))))
  = "Line 1" +++ JsString.NL +++ "Line 2".
Proof.
  apply (formatCommentThread_keeps_the_text
           (makeThread "1" "c2" "text" "Alice" "alice@example.com"
                       ("Line 1" +++ JsString.NL +++ "Line 2"))
           {| authorName := "Alice"; authorEmail := "alice@example.com";
              tc_content := "Line 1" +++ JsString.NL +++ "Line 2"; isReply := false |}).
  - reflexivity.
  - reflexivity.
Defined.

(* ===================================================================== *)
(** ** The anchor inserter *)
(* ===================================================================== *)

Lemma drop_append (a b : string) : JsString.drop (String.length a) (a +++ b) = b.
Proof. induction a as [| c a IH]; simpl; [now destruct b | assumption]. Qed.

Lemma prefix_append (a b : string) : String.prefix a (a +++ b) = true.
Proof. apply prefix_iff. now exists b. Qed.

Lemma replace_first_unfold (pat rep s : string) :
  JsString.replace_first pat rep s =
  if String.prefix pat s then rep +++ JsString.drop (String.length pat) s
  else match s with
       | EmptyString => EmptyString
       | String c rest => String c (JsString.replace_first pat rep rest)
       end.
Proof. destruct s; reflexivity. Qed.

Lemma includes_cons_false (c : ascii) (s pat : string) :
  JsString.includes (String c s) pat = false ->
  String.prefix pat (String c s) = false /\ JsString.includes s pat = false.
Proof.
  rewrite includes_unfold.
  destruct (String.prefix pat (String c s)); [discriminate | auto].
Qed.

(** Where the pattern does not occur, nothing is replaced. *)
Lemma replace_first_absent (pat rep s : string) :
  JsString.includes s pat = false -> JsString.replace_first pat rep s = s.
Proof.
  induction s as [| c s IH]; intros H; rewrite replace_first_unfold.
  - rewrite includes_unfold in H.
    destruct (String.prefix pat ""); [discriminate | reflexivity].
  - apply includes_cons_false in H as [Hp Hs]. rewrite Hp. f_equal. now apply IH.
Qed.

(** The occurrence that starts behind [before] is the one replaced when the
    pattern occurs at no earlier position. *)
Lemma replace_first_at (pat rep before after : string) :
  (forall i, i < String.length before ->
             String.prefix pat (JsString.drop i (before +++ pat +++ after)) = false) ->
  JsString.replace_first pat rep (before +++ pat +++ after)
  = before +++ rep +++ after.
Proof.
  induction before as [| c before IH]; intros Hfirst.
  - simpl String.append. rewrite replace_first_unfold, prefix_append, drop_append.
    reflexivity.
  - pose proof (Hfirst 0 ltac:(simpl; lia)) as Hhead.
    cbn [JsString.drop String.append] in Hhead.
    cbn [String.append]. rewrite replace_first_unfold, Hhead. f_equal.
    apply IH. intros i Hi. apply (Hfirst (S i)). simpl. lia.
Qed.

(** X12.  [insertAnchors] with one thread wraps the first occurrence of the
    quoted text, and only that one, in the anchor marker of the thread; a
    line in which the quoted text does not occur, or a thread without
    quoted text, leaves the line as it is. *)
Theorem insertAnchors_wraps_the_first_occurrence :
  forall (thread : CommentThread) (text : string),
    (forall before after,
        quotedText thread <> "" ->
        text = before +++ quotedText thread +++ after ->
        (forall i, i < String.length before ->
                   String.prefix (quotedText thread) (JsString.drop i text) = false) ->
        insertAnchors text [thread] = before +++ anchor_marker thread +++ after)
    /\ (JsString.includes text (quotedText thread) = false ->
        insertAnchors text [thread] = text)
    /\ (quotedText thread = "" -> insertAnchors text [thread] = text).
Proof.
  intros thread text. unfold insertAnchors. simpl.
  split; [| split].
  - intros before after Hq -> Hfirst.
    rewrite (truthy_nonempty _ Hq). now apply replace_first_at.
  - intros Habsent. destruct (JsString.truthy (quotedText thread)); [| reflexivity].
    now apply replace_first_absent.
  - intros ->. reflexivity.
Qed.

Lemma insertAnchors_wraps_the_first_occurrence_witness :
  insertAnchors "Here is some text, and some more."
                [makeThread "1" "c1" "some" "Alice" "alice@test.com" "Comment"]
  = "Here is " +++ "[some]^[c1]" +++ " text, and some more.".
Proof.
  apply (proj1 (insertAnchors_wraps_the_first_occurrence
                  (makeThread "1" "c1" "some" "Alice" "alice@test.com" "Comment")
                  "Here is some text, and some more.")
               "Here is " " text, and some more.").
  - discriminate.
  - reflexivity.
  - intros i Hi.
    do 8 (destruct i as [| i]; [reflexivity |]). simpl in Hi. lia.
Defined.

Lemma insert_by_length_permutation (t : CommentThread) (sorted : list CommentThread) :
  Permutation.Permutation (insert_by_length t sorted) (t :: sorted).
Proof.
  induction sorted as [| u rest IH]; simpl.
  - apply Permutation.Permutation_refl.
  - destruct (String.length (quotedText t) <? String.length (quotedText u)).
    + eapply Permutation.perm_trans; [apply Permutation.perm_skip, IH |].
      apply Permutation.perm_swap.
    + apply Permutation.Permutation_refl.
Qed.

Lemma insert_by_length_sorted (t : CommentThread) (sorted : list CommentThread) :
  Sorted.StronglySorted (fun a b => quote_length b <= quote_length a) sorted ->
  Sorted.StronglySorted (fun a b => quote_length b <= quote_length a)
                        (insert_by_length t sorted).
Proof.
  unfold quote_length.
  induction 1 as [| u rest Hrest IH Hu]; simpl.
  - repeat constructor.
  - destruct (Nat.ltb_spec (String.length (quotedText t))
                           (String.length (quotedText u))) as [Hlt | Hge].
    + constructor; [assumption |].
      rewrite Forall_forall. intros x Hx.
      apply (Permutation.Permutation_in _ (insert_by_length_permutation t rest)) in Hx.
      destruct Hx as [<- | Hx]; [lia |].
      rewrite Forall_forall in Hu. now apply Hu.
    + constructor; [constructor; assumption |].
      constructor; [assumption |].
      rewrite Forall_forall in *. intros x Hx. specialize (Hu x Hx). lia.
Qed.

Lemma insert_by_length_stable (t : CommentThread) (sorted : list CommentThread) (n : nat) :
  filter (fun x => quote_length x =? n) (insert_by_length t sorted)
  = filter (fun x => quote_length x =? n) (t :: sorted).
Proof.
  unfold quote_length.
  induction sorted as [| u rest IH]; [reflexivity |].
  cbn [insert_by_length].
  destruct (Nat.ltb_spec (String.length (quotedText t))
                         (String.length (quotedText u))) as [Hlt | Hge];
    [| reflexivity].
  cbn [filter] in *. rewrite IH.
  destruct (Nat.eqb_spec (String.length (quotedText t)) n) as [Ht | Ht];
    [| reflexivity].
  destruct (Nat.eqb_spec (String.length (quotedText u)) n) as [Hu | Hu];
    [lia | reflexivity].
Qed.

(** X13.  The order in which [insertAnchors] takes the threads is a stable
    sort by the length of the quoted text, longest first: the same threads,
    no quoted text longer than one before it, and threads with quoted texts
    of equal length in their input order. *)
Theorem sort_longest_first_is_a_stable_sort :
  forall (threads : list CommentThread),
    Permutation.Permutation (sort_longest_first threads) threads
    /\ Sorted.StronglySorted (fun a b => quote_length b <= quote_length a)
                             (sort_longest_first threads)
    /\ (forall n, filter (fun x => quote_length x =? n) (sort_longest_first threads)
                  = filter (fun x => quote_length x =? n) threads).
Proof.
  induction threads as [| t threads [IHperm [IHsorted IHstable]]]; simpl.
  - repeat split; constructor.
  - split; [| split].
    + eapply Permutation.perm_trans; [apply insert_by_length_permutation |].
      now apply Permutation.perm_skip.
    + now apply insert_by_length_sorted.
    + intros n. rewrite insert_by_length_stable. cbn [filter].
      now rewrite IHstable.
Qed.

(* ===================================================================== *)
(** ** The list classifier *)
(* ===================================================================== *)

Lemma includes_empty (t : string) :
  JsString.truthy t = true -> JsString.includes "" t = false.
Proof. destruct t; [discriminate | reflexivity]. Qed.

(** X14.  [getListPrefix] is empty for a paragraph without bullet; for a
    bullet it is two spaces per nesting level followed by [- ] or [1. ], and
    it is the unordered [- ] whenever the list metadata gives no glyph
    format: no list table, an unknown list identifier, no list properties,
    or no entry for the nesting level. *)
Theorem getListPrefix_defaults_to_unordered :
  forall (paragraph : Paragraph) (doc : GoogleDocsDocument),
    (bullet paragraph = None -> getListPrefix paragraph doc = "")
    /\ (forall b,
           bullet paragraph = Some b ->
           (getListPrefix paragraph doc = JsString.repeat "  " (bullet_level b) +++ "- "
            \/ getListPrefix paragraph doc = JsString.repeat "  " (bullet_level b) +++ "1. ")
           /\ (lists doc = None
               \/ (exists table,
                      lists doc = Some table
                      /\ (lookup (listId b) table = None
                          \/ exists details,
                              lookup (listId b) table = Some details
                              /\ (listProperties details = None
                                  \/ exists props,
                                      listProperties details = Some props
                                      /\ length (nestingLevels props) <= bullet_level b))) ->
               getListPrefix paragraph doc
               = JsString.repeat "  " (bullet_level b) +++ "- ")).
Proof.
  intros paragraph doc. unfold getListPrefix. split.
  - intros ->. reflexivity.
  - intros b ->. cbv zeta. fold (bullet_level b). split.
    + match goal with |- context [if ?c then _ else _] => destruct c end; auto.
    + intros Hmissing.
      assert (Hglyph :
                match nth_error
                        match match lists doc with
                              | Some table => lookup (listId b) table
                              | None => None
                              end with
                        | Some details =>
                            match listProperties details with
                            | Some props => nestingLevels props
                            | None => []
                            end
                        | None => []
                        end (bullet_level b) with
                | Some level => match glyphFormat level with Some g => g | None => "" end
                | None => ""
                end = "").
      { destruct Hmissing as [-> | [table [-> [-> | [details [-> Hprops]]]]]].
        - now destruct (bullet_level b).
        - now destruct (bullet_level b).
        - destruct Hprops as [-> | [props [-> Hshort]]].
          + now destruct (bullet_level b).
          + apply nth_error_None in Hshort. now rewrite Hshort. }
      rewrite Hglyph. reflexivity.
Qed.

Lemma getListPrefix_defaults_to_unordered_witness :
  getListPrefix {| p_elements := [text_span "Nested"]; paragraphStyle := None;
                   bullet := Some {| listId := "list9"; nestingLevel := Some 1 |} |}
                (makeDoc [])
  = "  - ".
Proof.
  apply (proj2 (getListPrefix_defaults_to_unordered
                  {| p_elements := [text_span "Nested"]; paragraphStyle := None;
                     bullet := Some {| listId := "list9"; nestingLevel := Some 1 |} |}
                  (makeDoc []))
               {| listId := "list9"; nestingLevel := Some 1 |} eq_refl).
  left. reflexivity.
Defined.

(* ===================================================================== *)
(** ** Threads and blocks the transformer passes over *)
(* ===================================================================== *)

Lemma filter_filter_implied {A : Type} (f g : A -> bool) (l : list A) :
  (forall x, In x l -> f x = true -> g x = true) ->
  filter f (filter g l) = filter f l.
Proof.
  induction l as [| x l IH]; intros H; simpl; [reflexivity |].
  destruct (g x) eqn:Hg; simpl.
  - destruct (f x); rewrite IH; auto; intros y Hy; apply H; now right.
  - destruct (f x) eqn:Hf.
    + rewrite (H x (or_introl eq_refl) Hf) in Hg. discriminate.
    + apply IH. intros y Hy. apply H. now right.
Qed.

Lemma fold_left_ext_in {A B : Type} (f g : A -> B -> A) (l : list B) (a : A) :
  (forall a x, In x l -> f a x = g a x) ->
  fold_left f l a = fold_left g l a.
Proof.
  revert a. induction l as [| x l IH]; intros a H; simpl; [reflexivity |].
  rewrite (H a x (or_introl eq_refl)). apply IH.
  intros a' y Hy. apply H. now right.
Qed.

Lemma transform_step_anchorable (doc : GoogleDocsDocument) (threads : list CommentThread)
      (st : TransformState) (element : StructuralElement) :
  In element (body_content doc) ->
  transform_step doc (filter (anchorable doc) threads) st element
  = transform_step doc threads st element.
Proof.
  intros Hin. unfold transform_step.
  destruct (paragraph element) as [p |] eqn:Hp; [| reflexivity].
  cbv zeta.
  rewrite (filter_filter_implied
             (fun thread =>
                JsString.truthy (quotedText thread)
                && JsString.includes
                     (JsString.strip_final_newline (extractTextContent (p_elements p)))
                     (quotedText thread))
             (anchorable doc) threads).
  - reflexivity.
  - intros t _ Ht. apply andb_true_iff in Ht as [Htruthy Hincl].
    unfold anchorable. rewrite Htruthy. simpl.
    apply existsb_exists. exists element. split; [assumption |].
    unfold block_text. now rewrite Hp.
Qed.

(** X15.  A thread without quoted text, or whose quoted text occurs in no
    block of the document, leaves no trace in the markdown:
    [transformToMarkdown] gives the same result with such threads taken
    out. *)
Theorem transformToMarkdown_passes_over_unmatched_threads :
  forall (doc : GoogleDocsDocument) (threads : list CommentThread),
    transformToMarkdown doc (filter (anchorable doc) threads)
    = transformToMarkdown doc threads.
Proof.
  intros doc threads. unfold transformToMarkdown. cbv zeta.
  rewrite (fold_left_ext_in
             (transform_step doc (filter (anchorable doc) threads))
             (transform_step doc threads)).
  - reflexivity.
  - intros st element Hin. now apply transform_step_anchorable.
Qed.

Lemma existsb_is_title_paragraphs (elements : list StructuralElement) :
  existsb is_title (filter is_paragraph elements) = existsb is_title elements.
Proof.
  induction elements as [| e elements IH]; [reflexivity |].
  simpl. unfold is_paragraph at 1. unfold is_title at 2.
  destruct (paragraph e) as [p |] eqn:Hp; simpl.
  - rewrite IH. unfold is_title at 1. now rewrite Hp.
  - exact IH.
Qed.

Lemma transform_paragraphs_only (doc doc' : GoogleDocsDocument)
      (threads : list CommentThread) (elements : list StructuralElement)
      (st : TransformState) :
  lists doc' = lists doc ->
  fold_left (transform_step doc' threads) (filter is_paragraph elements) st
  = fold_left (transform_step doc threads) elements st.
Proof.
  intros Hlists. revert st.
  induction elements as [| e elements IH]; intros st; [reflexivity |].
  simpl. unfold is_paragraph at 1.
  destruct (paragraph e) as [p |] eqn:Hp.
  - simpl. rewrite IH. f_equal.
    unfold transform_step. rewrite Hp. unfold getListPrefix. now rewrite Hlists.
  - rewrite IH. f_equal. unfold transform_step. now rewrite Hp.
Qed.

(** X16.  [transformToMarkdown] passes over every structural element that
    is not a paragraph (table, section break, table of contents): the
    markdown is that of the document with those elements taken out. *)
Theorem transformToMarkdown_passes_over_non_paragraphs :
  forall (doc : GoogleDocsDocument) (threads : list CommentThread),
    transformToMarkdown (paragraphs_only doc) threads = transformToMarkdown doc threads.
Proof.
  intros doc threads. unfold transformToMarkdown. cbv zeta.
  cbn [paragraphs_only body_content title].
  rewrite existsb_is_title_paragraphs.
  now rewrite (transform_paragraphs_only doc (paragraphs_only doc)).
Qed.

(* ===================================================================== *)
(** ** Character counts against texts *)
(* ===================================================================== *)

Lemma length_append (a b : string) :
  String.length (a +++ b) = String.length a + String.length b.
Proof. induction a as [| c a IH]; simpl; [reflexivity | now rewrite IH]. Qed.

Lemma fold_left_span_chars (spans : list ParagraphElement) (acc : nat) :
  fold_left (fun sum el =>
               match textRun el with
               | Some tr => sum + String.length (content tr)
               | None => sum
               end) spans acc
  = acc + list_sum (map span_chars spans).
Proof.
  revert acc. induction spans as [| s spans IH]; intros acc; simpl; [lia |].
  rewrite IH. unfold span_chars at 2. destruct (textRun s); lia.
Qed.

Lemma getElementCharCount_paragraph (e : StructuralElement) (p : Paragraph) :
  paragraph e = Some p ->
  getElementCharCount e = list_sum (map span_chars (p_elements p)).
Proof.
  intros Hp. unfold getElementCharCount. rewrite Hp.
  now rewrite fold_left_span_chars.
Qed.

Lemma raw_text_length (spans : list ParagraphElement) :
  String.length
    (JsString.join ""
       (map (fun pe => match textRun pe with Some tr => content tr | None => "" end)
            spans))
  = list_sum (map span_chars spans).
Proof.
  rewrite join_empty_separator.
  induction spans as [| s spans IH]; simpl; [reflexivity |].
  rewrite length_append, IH. unfold span_chars at 2. now destruct (textRun s).
Qed.

Lemma rendered_span_length (span : ParagraphElement) :
  span_chars span <= String.length (spec_render_span span).
Proof.
  unfold span_chars, spec_render_span.
  destruct (textRun span) as [run |]; [| simpl; lia].
  destruct (textStyle run) as [style |]; [| lia].
  destruct (link_url style).
  - simpl. rewrite length_append. lia.
  - destruct (truthy_flag (bold style)), (truthy_flag (italic style));
      simpl; rewrite ?length_append; lia.
Qed.

Lemma extractTextContent_as_specified (spans : list ParagraphElement) :
  extractTextContent spans = spec_render_spans spans.
Proof.
  unfold extractTextContent, spec_render_spans.
  rewrite join_empty_separator. f_equal.
  apply map_ext. intros span. unfold spec_render_span.
  destruct (textRun span) as [run |]; [| reflexivity].
  destruct (textStyle run) as [style |]; [| reflexivity].
  apply applyTextStyle_cases.
Qed.

(** X17.  The page estimator counts the characters of the raw text: the
    length of [extractAllText], which the thread filter searches, is the sum
    of [getElementCharCount] over the blocks; and the text
    [extractTextContent] renders for a paragraph is never shorter than the
    count of that paragraph, style markers only adding to it. *)
Theorem char_counts_measure_the_raw_text :
  forall (elements : list StructuralElement),
    String.length (extractAllText elements) = block_chars elements
    /\ (forall e p,
           paragraph e = Some p ->
           getElementCharCount e <= String.length (extractTextContent (p_elements p))).
Proof.
  intros elements. split.
  - unfold extractAllText, block_chars. rewrite join_empty_separator.
    induction elements as [| e elements IH]; simpl; [reflexivity |].
    rewrite length_append, IH. f_equal.
    destruct (paragraph e) as [p |] eqn:Hp.
    + rewrite raw_text_length. symmetry. now apply getElementCharCount_paragraph.
    + unfold getElementCharCount. now rewrite Hp.
  - intros e p Hp. rewrite (getElementCharCount_paragraph e p Hp).
    rewrite extractTextContent_as_specified. unfold spec_render_spans.
    induction (p_elements p) as [| s spans IH]; simpl; [lia |].
    rewrite length_append. pose proof (rendered_span_length s). lia.
Qed.

Lemma char_counts_measure_the_raw_text_witness :
  getElementCharCount
    (block_of [styled_span "Hello" {| bold := Some true; italic := None; link := None |}])
  <= String.length
       (extractTextContent
          [styled_span "Hello" {| bold := Some true; italic := None; link := None |}]).
Proof.
  apply (proj2 (char_counts_measure_the_raw_text [])
               (block_of [styled_span "Hello"
                            {| bold := Some true; italic := None; link := None |}])
               {| p_elements :=
                    [styled_span "Hello"
                       {| bold := Some true; italic := None; link := None |}];
                  paragraphStyle := None; bullet := None |}).
  reflexivity.
Defined.

(* ===================================================================== *)
(** ** More on Drive comments *)
(* ===================================================================== *)

(** X18.  Every thread [convertDriveComments] returns comes from a comment
    that is unresolved or has quoted content, and holds the comment itself
    first, not flagged as a reply, followed by its replies in their order,
    each flagged as a reply, all with their text, author name and author
    email (empty when the author has none): one entry more than the comment
    has replies, so never an empty thread. *)
Theorem convertDriveComments_thread_shape :
  forall (driveComments : list DriveComment) (t : CommentThread),
    In t (convertDriveComments driveComments) ->
    exists c root rest,
      In c driveComments
      /\ drive_comment_kept c = true
      /\ comments t = root :: rest
      /\ isReply root = false
      /\ tc_content root = dc_content c
      /\ authorName root = displayName (dc_author c)
      /\ authorEmail root = string_or_empty (emailAddress (dc_author c))
      /\ map tc_content rest = map reply_content (replies c)
      /\ map authorName rest
         = map (fun reply => displayName (reply_author reply)) (replies c)
      /\ map authorEmail rest
         = map (fun reply => string_or_empty (emailAddress (reply_author reply)))
               (replies c)
      /\ Forall (fun reply => isReply reply = true) rest
      /\ length (comments t) = 1 + length (replies c).
Proof.
  intros driveComments t Hin. unfold convertDriveComments, mapi in Hin.
  apply mapi_from_In in Hin as [c [index [Hc ->]]].
  apply filter_In in Hc as [Hc Hkept].
  exists c. eexists. eexists. simpl.
  repeat split; try eassumption; try reflexivity.
  - now rewrite map_map.
  - now rewrite map_map.
  - now rewrite map_map.
  - apply Forall_map. rewrite Forall_forall. reflexivity.
  - now rewrite length_map.
Qed.

Lemma convertDriveComments_thread_shape_witness :
  exists c root rest,
    In c drive_comments
    /\ drive_comment_kept c = true
    /\ comments (thread_of_comment (drive_comment "done" true (Some "Hello")) 1)
       = root :: rest
    /\ isReply root = false
    /\ tc_content root = dc_content c
    /\ authorName root = displayName (dc_author c)
    /\ authorEmail root = string_or_empty (emailAddress (dc_author c))
    /\ map tc_content rest = map reply_content (replies c)
    /\ map authorName rest
       = map (fun reply => displayName (reply_author reply)) (replies c)
    /\ map authorEmail rest
       = map (fun reply => string_or_empty (emailAddress (reply_author reply)))
             (replies c)
    /\ Forall (fun reply => isReply reply = true) rest
    /\ length (comments (thread_of_comment (drive_comment "done" true (Some "Hello")) 1))
       = 1 + length (replies c).
Proof.
  apply (convertDriveComments_thread_shape drive_comments).
  right. left. reflexivity.
Defined.

(** X19.  When every thread that [convertDriveComments] returns has a
    non-empty quoted text that occurs in the text of the blocks,
    [filterAndRenumberThreads] returns those threads as they are: the two
    functions number the threads alike. *)
Theorem renumbering_converted_comments :
  forall (driveComments : list DriveComment) (elements : list StructuralElement),
    Forall (fun t => quotedText t <> ""
                     /\ JsString.includes (extractAllText elements) (quotedText t) = true)
           (convertDriveComments driveComments) ->
    filterAndRenumberThreads (convertDriveComments driveComments) elements
    = convertDriveComments driveComments.
Proof.
  intros driveComments elements Hquoted.
  apply renumbering_contiguous_is_identity; [| exact Hquoted].
  unfold convertDriveComments, mapi, contiguous_anchors.
  now rewrite thread_of_comment_anchors, mapi_from_length.
Qed.

Lemma renumbering_converted_comments_witness :
  filterAndRenumberThreads
    (convertDriveComments [drive_comment "done" true (Some "Hello")]) greeting_blocks
  = convertDriveComments [drive_comment "done" true (Some "Hello")].
Proof.
  apply (renumbering_converted_comments
           [drive_comment "done" true (Some "Hello")] greeting_blocks).
  repeat constructor. discriminate.
Defined.

(* ===================================================================== *)
(** ** Document identifiers *)
(* ===================================================================== *)

Lemma id_char_facts (c : ascii) :
  is_id_char c = true ->
  JsString.is_whitespace c = false /\ c <> "/"%char.
Proof.
  destruct c as [[] [] [] [] [] [] [] []]; intros H;
    try discriminate H; split; try reflexivity; discriminate.
Qed.

Lemma take_id_all (s : string) : all_id_chars (take_id s) = true.
Proof.
  induction s as [| c s IH]; simpl; [reflexivity |].
  destruct (is_id_char c) eqn:Hc; simpl; [now rewrite Hc | reflexivity].
Qed.

Lemma match_document_url_unfold (s : string) :
  match_document_url s =
  match (if String.prefix DOCUMENT_MARKER s
         then take_id (JsString.drop (String.length DOCUMENT_MARKER) s)
         else EmptyString) with
  | String c captured => Some (String c captured)
  | EmptyString =>
      match s with
      | EmptyString => None
      | String _ rest => match_document_url rest
      end
  end.
Proof. destruct s; reflexivity. Qed.

Lemma match_document_url_captures (s r : string) :
  match_document_url s = Some r -> r <> "" /\ all_id_chars r = true.
Proof.
  induction s as [| c s IH]; rewrite match_document_url_unfold.
  - destruct (String.prefix DOCUMENT_MARKER ""); simpl; discriminate.
  - destruct (if String.prefix DOCUMENT_MARKER (String c s)
              then take_id (JsString.drop (String.length DOCUMENT_MARKER) (String c s))
              else EmptyString) as [| d captured] eqn:Hcap.
    + exact IH.
    + intros H. injection H as <-. split; [discriminate |].
      rewrite <- Hcap.
      destruct (String.prefix DOCUMENT_MARKER (String c s)); [| reflexivity].
      apply take_id_all.
Qed.

(** X20.  Whatever the input, an identifier [extractDocumentId] returns is
    not empty and consists of letters, digits, [_] and [-] only. *)
Theorem extractDocumentId_returns_an_identifier :
  forall (input r : string),
    extractDocumentId input = Some r ->
    r <> "" /\ all_id_chars r = true.
Proof.
  intros input r. unfold extractDocumentId.
  destruct (negb (JsString.truthy input)); [discriminate |].
  cbv zeta.
  destruct (negb (JsString.truthy (JsString.trim input))); [discriminate |].
  destruct (match_document_url (JsString.trim input)) as [captured |] eqn:Hm.
  - intros H. injection H as <-. now apply match_document_url_captures in Hm.
  - destruct (JsString.truthy (JsString.trim input)) eqn:Ht; [| discriminate].
    destruct (all_id_chars (JsString.trim input)) eqn:Hall; [| discriminate].
    destruct (10 <? String.length (JsString.trim input)); [| discriminate].
    intros H. injection H as <-. split; [| assumption].
    intros Hempty. rewrite Hempty in Ht. discriminate.
Qed.

Lemma extractDocumentId_returns_an_identifier_witness :
  "1abc123" <> "" /\ all_id_chars "1abc123" = true.
Proof.
  apply (extractDocumentId_returns_an_identifier
           "https://docs.google.com/document/d/1abc123/edit/something").
  reflexivity.
Defined.

Lemma trimEnd_identifier (s : string) : all_id_chars s = true -> JsString.trimEnd s = s.
Proof.
  induction s as [| c s IH]; intros H; [reflexivity |].
  simpl in H. apply andb_true_iff in H as [Hc Hs].
  rewrite trimEnd_cons, (IH Hs).
  destruct s; [| reflexivity].
  now rewrite (proj1 (id_char_facts c Hc)).
Qed.

Lemma trim_identifier (s : string) : all_id_chars s = true -> JsString.trim s = s.
Proof.
  intros H. unfold JsString.trim. rewrite (trimEnd_identifier s H).
  destruct s as [| c s]; [reflexivity |].
  simpl in H. apply andb_true_iff in H as [Hc _].
  simpl. now rewrite (proj1 (id_char_facts c Hc)).
Qed.

Lemma prefix_marker_mismatch (c : ascii) (s : string) :
  c <> "/"%char -> String.prefix DOCUMENT_MARKER (String c s) = false.
Proof.
  intros Hc. unfold DOCUMENT_MARKER.
  change (String.prefix (String "/" "document/d/") (String c s))
    with (if ascii_dec "/"%char c then String.prefix "document/d/" s else false).
  destruct (ascii_dec "/"%char c); [congruence | reflexivity].
Qed.

Lemma match_document_url_identifier (s : string) :
  all_id_chars s = true -> match_document_url s = None.
Proof.
  induction s as [| c s IH]; intros H; [reflexivity |].
  simpl in H. apply andb_true_iff in H as [Hc Hs].
  rewrite match_document_url_unfold.
  rewrite (prefix_marker_mismatch c s (proj2 (id_char_facts c Hc))).
  now apply IH.
Qed.

(** X21.  A bare identifier (letters, digits, [_] and [-] only) is returned
    as it is when it has more than 10 characters, and rejected
    otherwise. *)
Theorem extractDocumentId_of_bare_identifier :
  forall (s : string),
    all_id_chars s = true ->
    extractDocumentId s = if 10 <? String.length s then Some s else None.
Proof.
  intros s Hall. unfold extractDocumentId. cbv zeta.
  rewrite (trim_identifier s Hall), (match_document_url_identifier s Hall), Hall.
  destruct s as [| c s]; [reflexivity |]. simpl JsString.truthy. simpl negb.
  cbv iota. now rewrite andb_true_l.
Qed.

Lemma extractDocumentId_of_bare_identifier_witness :
  extractDocumentId "1abc-123_XYZ-def456" = Some "1abc-123_XYZ-def456"
  /\ extractDocumentId "1abc123" = None.
Proof.
  split.
  - apply (extractDocumentId_of_bare_identifier "1abc-123_XYZ-def456"). reflexivity.
  - apply (extractDocumentId_of_bare_identifier "1abc123"). reflexivity.
Defined.

Lemma trimEnd_behind_identifier (id rest : string) :
  id <> "" ->
  all_id_chars id = true ->
  JsString.trimEnd (id +++ rest) = id +++ JsString.trimEnd rest.
Proof.
  induction id as [| c id IH]; intros Hne Hall; [now elim Hne |].
  simpl in Hall. apply andb_true_iff in Hall as [Hc Hid].
  cbn [String.append]. rewrite trimEnd_cons.
  destruct id as [| d id].
  - simpl String.append.
    destruct (JsString.trimEnd rest); [| reflexivity].
    now rewrite (proj1 (id_char_facts c Hc)).
  - rewrite IH by (assumption || discriminate). reflexivity.
Qed.

Lemma trimEnd_in_front (a b : string) :
  JsString.trimEnd b <> "" ->
  JsString.trimEnd (a +++ b) = a +++ JsString.trimEnd b.
Proof.
  intros Hb. induction a as [| c a IH]; [reflexivity |].
  cbn [String.append]. rewrite trimEnd_cons, IH.
  destruct (a +++ JsString.trimEnd b) eqn:Hab; [| reflexivity].
  destruct a; [simpl in Hab; contradiction | discriminate].
Qed.

Lemma take_id_trimEnd (rest : string) :
  take_id rest = "" -> take_id (JsString.trimEnd rest) = "".
Proof.
  destruct rest as [| c rest]; [reflexivity |].
  simpl. destruct (is_id_char c) eqn:Hc; [discriminate |]. intros _.
  change (JsString.trimEnd (String c rest))
    with (match JsString.trimEnd rest with
          | EmptyString =>
              if JsString.is_whitespace c then EmptyString else String c EmptyString
          | String d kept => String c (String d kept)
          end).
  destruct (JsString.trimEnd rest).
  - destruct (JsString.is_whitespace c); simpl; [reflexivity | now rewrite Hc].
  - simpl. now rewrite Hc.
Qed.

Lemma take_id_identifier (id rest : string) :
  all_id_chars id = true ->
  take_id rest = "" ->
  take_id (id +++ rest) = id.
Proof.
  induction id as [| c id IH]; intros Hall Hrest; [assumption |].
  simpl in Hall. apply andb_true_iff in Hall as [Hc Hid].
  simpl. rewrite Hc. f_equal. now apply IH.
Qed.

Lemma match_document_url_behind_host (x : string) :
  match_document_url (DOCS_HOST +++ x) = match_document_url x.
Proof. reflexivity. Qed.

Lemma match_document_url_at_marker (id rest : string) :
  id <> "" ->
  all_id_chars id = true ->
  take_id rest = "" ->
  match_document_url (DOCUMENT_MARKER +++ id +++ rest) = Some id.
Proof.
  intros Hne Hall Hrest. rewrite match_document_url_unfold.
  rewrite prefix_append, drop_append, take_id_identifier by assumption.
  destruct id; [now elim Hne | reflexivity].
Qed.

(** X22.  From the address of a document, the host followed by
    [/document/d/], the identifier, and anything that does not go on with
    an identifier character (nothing, [/edit], a query, white space),
    [extractDocumentId] returns the identifier, however short. *)
Theorem extractDocumentId_of_document_address :
  forall (id rest : string),
    id <> "" ->
    all_id_chars id = true ->
    take_id rest = "" ->
    extractDocumentId (DOCS_HOST +++ DOCUMENT_MARKER +++ id +++ rest) = Some id.
Proof.
  intros id rest Hne Hall Hrest.
  assert (Htrim : JsString.trim (DOCS_HOST +++ DOCUMENT_MARKER +++ id +++ rest)
                  = DOCS_HOST +++ DOCUMENT_MARKER +++ id +++ JsString.trimEnd rest).
  { unfold JsString.trim.
    rewrite <- (append_assoc DOCS_HOST DOCUMENT_MARKER).
    rewrite trimEnd_in_front.
    - now rewrite trimEnd_behind_identifier.
    - rewrite trimEnd_behind_identifier by assumption.
      destruct id; [now elim Hne | discriminate]. }
  unfold extractDocumentId. cbv zeta. rewrite Htrim.
  rewrite match_document_url_behind_host.
  rewrite match_document_url_at_marker;
    [reflexivity | assumption | assumption | now apply take_id_trimEnd].
Qed.

Lemma extractDocumentId_of_document_address_witness :
  extractDocumentId (DOCS_HOST +++ DOCUMENT_MARKER +++ "1abc123" +++ "/edit?usp=sharing  ")
  = Some "1abc123".
Proof.
  apply (extractDocumentId_of_document_address "1abc123" "/edit?usp=sharing  ").
  - discriminate.
  - reflexivity.
  - reflexivity.
Defined.

(* ===================================================================== *)
(** ** Relative times *)
(* ===================================================================== *)

Section RelativeTimeFacts.

Variable toLocaleDateString : Z -> string.

(** X23.  [formatRelativeTime] depends on the elapsed milliseconds alone,
    with these thresholds: below one minute (also for a time in the future)
    'just now'; then whole minutes; from one hour whole hours; from one day
    to two 'yesterday'; then whole days; and from thirty days on the
    calendar date.  The singular forms are used for exactly one minute and
    one hour. *)
Theorem formatRelativeTime_thresholds :
  forall (now timestamp : Z),
    let elapsed := (now - timestamp)%Z in
    ((elapsed < 60000)%Z ->
     formatRelativeTime toLocaleDateString now timestamp = "just now")
    /\ ((60000 <= elapsed < 120000)%Z ->
        formatRelativeTime toLocaleDateString now timestamp = "1 minute ago")
    /\ ((120000 <= elapsed < 3600000)%Z ->
        formatRelativeTime toLocaleDateString now timestamp
        = string_of_Z (elapsed / 60000) +++ " minutes ago")
    /\ ((3600000 <= elapsed < 7200000)%Z ->
        formatRelativeTime toLocaleDateString now timestamp = "1 hour ago")
    /\ ((7200000 <= elapsed < 86400000)%Z ->
        formatRelativeTime toLocaleDateString now timestamp
        = string_of_Z (elapsed / 3600000) +++ " hours ago")
    /\ ((86400000 <= elapsed < 172800000)%Z ->
        formatRelativeTime toLocaleDateString now timestamp = "yesterday")
    /\ ((172800000 <= elapsed < 2592000000)%Z ->
        formatRelativeTime toLocaleDateString now timestamp
        = string_of_Z (elapsed / 86400000) +++ " days ago")
    /\ ((2592000000 <= elapsed)%Z ->
        formatRelativeTime toLocaleDateString now timestamp
        = toLocaleDateString timestamp).
Proof.
  intros now timestamp elapsed. unfold formatRelativeTime. cbv zeta. fold elapsed.
  assert (Hmin : (elapsed / 1000 / 60 = elapsed / 60000)%Z)
    by (rewrite Z.div_div by lia; reflexivity).
  assert (Hhour : (elapsed / 1000 / 60 / 60 = elapsed / 3600000)%Z)
    by (rewrite !Z.div_div by lia; reflexivity).
  assert (Hday : (elapsed / 1000 / 60 / 60 / 24 = elapsed / 86400000)%Z)
    by (rewrite !Z.div_div by lia; reflexivity).
  rewrite Hday, Hhour, Hmin.
  repeat split; intros Hrange;
    repeat match goal with
           | |- context [(?a <? ?b)%Z] => destruct (Z.ltb_spec a b)
           | |- context [(?a =? ?b)%Z] => destruct (Z.eqb_spec a b)
           end;
    try reflexivity; exfalso; Z.div_mod_to_equations; lia.
Qed.

End RelativeTimeFacts.

Lemma formatRelativeTime_thresholds_witness :
  formatRelativeTime (fun _ => "Jan 1, 2026") 1770000000000 (1770000000000 - 7200000)
  = string_of_Z ((1770000000000 - (1770000000000 - 7200000)) / 3600000) +++ " hours ago".
Proof.
  apply (formatRelativeTime_thresholds (fun _ => "Jan 1, 2026")
           1770000000000 (1770000000000 - 7200000)).
  lia.
Defined.

(* ===================================================================== *)
(** ** The conversion history *)
(* ===================================================================== *)

Lemma find_other_doc (docId' removed : string) (es : list HistoryEntry) :
  docId' <> removed ->
  find (fun e => String.eqb (docId e) docId') (filter (other_doc removed) es)
  = find (fun e => String.eqb (docId e) docId') es.
Proof.
  intros Hne. induction es as [| e es IH]; [reflexivity |].
  simpl. unfold other_doc at 1.
  destruct (String.eqb_spec (docId e) removed) as [Hr | Hr]; simpl.
  - destruct (String.eqb_spec (docId e) docId'); [congruence | exact IH].
  - destruct (String.eqb (docId e) docId'); [reflexivity | exact IH].
Qed.

Lemma find_removed_doc (removed : string) (es : list HistoryEntry) :
  find (fun e => String.eqb (docId e) removed) (filter (other_doc removed) es) = None.
Proof.
  induction es as [| e es IH]; [reflexivity |].
  simpl. unfold other_doc at 1.
  destruct (String.eqb (docId e) removed) eqn:He; simpl; [exact IH |].
  now rewrite He.
Qed.

Lemma filter_length_same {A : Type} (f : A -> bool) (l : list A) :
  length (filter f l) = length l <-> filter f l = l.
Proof.
  split; [| intros H; now rewrite H].
  induction l as [| x l IH]; [reflexivity |].
  simpl. destruct (f x); simpl; intros H.
  - f_equal. apply IH. lia.
  - pose proof (filter_length_le f l). lia.
Qed.

Lemma find_none_other_doc (removed : string) (es : list HistoryEntry) :
  find (fun e => String.eqb (docId e) removed) es = None <->
  filter (other_doc removed) es = es.
Proof.
  induction es as [| e es IH]; [split; reflexivity |].
  simpl. unfold other_doc at 1.
  destruct (String.eqb (docId e) removed); simpl.
  - split; [discriminate |]. intros H.
    pose proof (filter_length_le (other_doc removed) es) as Hlen.
    rewrite H in Hlen. simpl in Hlen. lia.
  - rewrite IH. split; intros H; [now rewrite H | now injection H].
Qed.

Lemma doc_ids_filter (f : HistoryEntry -> bool) (es : list HistoryEntry) :
  NoDup (map docId es) -> NoDup (map docId (filter f es)).
Proof.
  induction es as [| e es IH]; simpl; intros H; [constructor |].
  inversion H as [| x xs Hnotin Hrest]; subst.
  destruct (f e); simpl; [| now apply IH].
  constructor; [| now apply IH].
  intros Hin. apply Hnotin. apply in_map_iff in Hin as [e' [He' Hin]].
  apply filter_In in Hin as [Hin _]. apply in_map_iff. eauto.
Qed.

Lemma doc_ids_firstn (n : nat) (es : list HistoryEntry) :
  NoDup (map docId es) -> NoDup (map docId (firstn n es)).
Proof.
  revert n. induction es as [| e es IH]; intros n H; destruct n; simpl;
    try constructor.
  - inversion H as [| x xs Hnotin Hrest]; subst.
    intros Hin. apply Hnotin. apply in_map_iff in Hin as [e' [He' Hin]].
    apply in_map_iff. exists e'. split; [assumption |].
    rewrite <- (firstn_skipn n es). apply in_or_app. now left.
  - inversion H; subst. now apply IH.
Qed.

Section HistoryFacts.

Variable Stored : Type.
Variable stringify : list HistoryEntry -> Stored.
Variable parse : Stored -> option (list HistoryEntry).

Lemma entries_persist (st : HistoryState Stored) :
  entries (persist Stored stringify st) = entries st.
Proof. unfold persist. now destruct (storage_available st). Qed.

Lemma entries_addEntry (entry : HistoryEntry) (st : HistoryState Stored) :
  entries (addEntry stringify entry st)
  = firstn MAX_ENTRIES (entry :: filter (other_doc (docId entry)) (entries st)).
Proof.
  unfold addEntry. cbv zeta. rewrite entries_persist. cbn [entries].
  destruct (Nat.ltb_spec MAX_ENTRIES
              (length (entry :: filter (other_doc (docId entry)) (entries st))))
    as [Hover | Hfit]; [reflexivity |].
  symmetry. now apply firstn_all2.
Qed.

(** X24.  After [addEntry] the entry is the first of the history, looking
    its document up returns it, and the history has at most 50 entries,
    whatever it held before. *)
Theorem addEntry_puts_the_entry_first :
  forall (entry : HistoryEntry) (st : HistoryState Stored),
    (exists rest, entries (addEntry stringify entry st) = entry :: rest)
    /\ getEntryByDocId (docId entry) (addEntry stringify entry st) = Some entry
    /\ length (entries (addEntry stringify entry st)) <= MAX_ENTRIES.
Proof.
  intros entry st. unfold getEntryByDocId. rewrite entries_addEntry.
  split; [| split].
  - eexists. reflexivity.
  - simpl. now rewrite String.eqb_refl.
  - apply firstn_le_length.
Qed.

(** X25.  [addEntry] and [removeEntry] keep the document identifiers of the
    history distinct: with no identifier twice before, none is there twice
    after, also when the document added was already in the history. *)
Theorem history_keeps_doc_ids_distinct :
  forall (entry : HistoryEntry) (removed : string) (st : HistoryState Stored),
    NoDup (map docId (entries st)) ->
    NoDup (map docId (entries (addEntry stringify entry st)))
    /\ NoDup (map docId (entries (snd (removeEntry stringify removed st)))).
Proof.
  intros entry removed st Hdistinct. split.
  - rewrite entries_addEntry. apply doc_ids_firstn. simpl. constructor.
    + intros Hin. apply in_map_iff in Hin as [e [He Hin]].
      apply filter_In in Hin as [_ Hother]. unfold other_doc in Hother.
      rewrite He, String.eqb_refl in Hother. discriminate.
    + now apply doc_ids_filter.
  - unfold removeEntry. cbv zeta.
    destruct (length (filter (other_doc removed) (entries st)) =? length (entries st));
      cbn [snd]; rewrite ?entries_persist; cbn [entries]; now apply doc_ids_filter.
Qed.

(** X26.  While the history has fewer than 50 entries, [addEntry] loses
    none: looking up any other document gives what it gave before. *)
Theorem addEntry_keeps_the_other_entries :
  forall (entry : HistoryEntry) (docId' : string) (st : HistoryState Stored),
    docId' <> docId entry ->
    length (entries st) < MAX_ENTRIES ->
    getEntryByDocId docId' (addEntry stringify entry st) = getEntryByDocId docId' st.
Proof.
  intros entry docId' st Hother Hroom. unfold getEntryByDocId.
  rewrite entries_addEntry, firstn_all2.
  - simpl. destruct (String.eqb_spec (docId entry) docId'); [congruence |].
    now apply find_other_doc.
  - simpl. pose proof (filter_length_le (other_doc (docId entry)) (entries st)).
    unfold MAX_ENTRIES in *. lia.
Qed.

(** X27.  [removeEntry] answers true exactly when the history has an entry
    for the document; afterwards the document is not found, every other
    document is found as before, and when the answer is false neither the
    entries nor the stored item have changed. *)
Theorem removeEntry_reports_what_it_removed :
  forall (removed : string) (st : HistoryState Stored),
    (fst (removeEntry stringify removed st) = true
     <-> exists e, getEntryByDocId removed st = Some e)
    /\ getEntryByDocId removed (snd (removeEntry stringify removed st)) = None
    /\ (forall docId', docId' <> removed ->
                       getEntryByDocId docId' (snd (removeEntry stringify removed st))
                       = getEntryByDocId docId' st)
    /\ (fst (removeEntry stringify removed st) = false ->
        entries (snd (removeEntry stringify removed st)) = entries st
        /\ stored (snd (removeEntry stringify removed st)) = stored st).
Proof.
  intros removed st.
  assert (Hentries : entries (snd (removeEntry stringify removed st))
                     = filter (other_doc removed) (entries st)).
  { unfold removeEntry. cbv zeta.
    destruct (length (filter (other_doc removed) (entries st)) =? length (entries st));
      cbn [snd]; rewrite ?entries_persist; reflexivity. }
  unfold getEntryByDocId. rewrite Hentries.
  split; [| split; [| split]].
  - unfold removeEntry. cbv zeta.
    destruct (Nat.eqb_spec (length (filter (other_doc removed) (entries st)))
                           (length (entries st))) as [Hsame | Hless]; cbn [fst].
    + apply filter_length_same in Hsame. apply find_none_other_doc in Hsame.
      rewrite Hsame. split; [discriminate | intros [e He]; discriminate].
    + split; [| reflexivity]. intros _.
      destruct (find (fun e => String.eqb (docId e) removed) (entries st)) as [e |] eqn:Hfind;
        [now exists e |].
      apply find_none_other_doc in Hfind. rewrite Hfind in Hless. now elim Hless.
  - apply find_removed_doc.
  - intros docId' Hother. now apply find_other_doc.
  - unfold removeEntry. cbv zeta.
    destruct (Nat.eqb_spec (length (filter (other_doc removed) (entries st)))
                           (length (entries st))) as [Hsame | Hless]; cbn [fst snd];
      [| discriminate].
    intros _. apply filter_length_same in Hsame. cbn [entries stored]. now split.
Qed.

Hypothesis parse_stringify : forall es, parse (stringify es) = Some es.

(** X28.  What [addEntry] and [removeEntry] write to [localStorage] is the
    history itself: with [JSON.parse] undoing [JSON.stringify] and the
    storage working, a session that starts from the stored item and calls
    [restoreHistory] has the entries the earlier session had after the
    call; and after [clearHistory] there is nothing to restore. *)
Theorem restoreHistory_brings_the_history_back :
  forall (entry : HistoryEntry) (removed : string) (st fresh : HistoryState Stored),
    storage_available st = true ->
    storage_available fresh = true ->
    (stored fresh = stored (addEntry stringify entry st) ->
     entries (restoreHistory parse fresh) = entries (addEntry stringify entry st))
    /\ (fst (removeEntry stringify removed st) = true ->
        stored fresh = stored (snd (removeEntry stringify removed st)) ->
        entries (restoreHistory parse fresh)
        = entries (snd (removeEntry stringify removed st)))
    /\ (stored fresh = stored (clearHistory st) ->
        entries (restoreHistory parse fresh) = entries fresh).
Proof.
  intros entry removed st fresh Hst Hfresh.
  unfold restoreHistory. rewrite Hfresh.
  split; [| split].
  - intros ->. unfold addEntry, persist. cbv zeta. cbn [storage_available stored entries].
    rewrite Hst. cbn [stored entries]. now rewrite parse_stringify.
  - unfold removeEntry, persist. cbv zeta.
    destruct (length (filter (other_doc removed) (entries st)) =? length (entries st));
      cbn [fst snd]; [discriminate |].
    intros _ ->. cbn [storage_available stored entries].
    rewrite Hst. cbn [stored entries]. now rewrite parse_stringify.
  - intros ->. unfold clearHistory. cbn [stored]. now rewrite Hst.
Qed.

End HistoryFacts.

Lemma history_keeps_doc_ids_distinct_witness :
  NoDup (map docId
             (entries (addEntry (fun es => es) (makeEntry "doc-1" "First Updated" 3000)
                                (history_of [makeEntry "doc-2" "Second" 2000;
                                             makeEntry "doc-1" "First" 1000])))).
Proof.
  apply (history_keeps_doc_ids_distinct
           (list HistoryEntry) (fun es => es)
           (makeEntry "doc-1" "First Updated" 3000) "doc-2"
           (history_of [makeEntry "doc-2" "Second" 2000; makeEntry "doc-1" "First" 1000])).
  simpl. repeat constructor; simpl; intuition discriminate.
Defined.

Lemma addEntry_keeps_the_other_entries_witness :
  getEntryByDocId "doc-2"
    (addEntry (fun es => es) (makeEntry "doc-1" "First Updated" 3000)
              (history_of [makeEntry "doc-2" "Second" 2000; makeEntry "doc-1" "First" 1000]))
  = getEntryByDocId "doc-2"
      (history_of [makeEntry "doc-2" "Second" 2000; makeEntry "doc-1" "First" 1000]).
Proof.
  apply (addEntry_keeps_the_other_entries
           (list HistoryEntry) (fun es => es)
           (makeEntry "doc-1" "First Updated" 3000) "doc-2").
  - discriminate.
  - simpl. unfold MAX_ENTRIES. lia.
Defined.

Lemma removeEntry_reports_what_it_removed_witness :
  getEntryByDocId "doc-1"
    (snd (removeEntry (fun es => es) "doc-2"
            (history_of [makeEntry "doc-2" "Second" 2000; makeEntry "doc-1" "First" 1000])))
  = getEntryByDocId "doc-1"
      (history_of [makeEntry "doc-2" "Second" 2000; makeEntry "doc-1" "First" 1000]).
Proof.
  apply (removeEntry_reports_what_it_removed
           (list HistoryEntry) (fun es => es) "doc-2"
           (history_of [makeEntry "doc-2" "Second" 2000; makeEntry "doc-1" "First" 1000])).
  discriminate.
Defined.

Lemma restoreHistory_brings_the_history_back_witness :
  entries (restoreHistory (fun raw => Some raw)
             {| entries := []; storage_available := true;
                stored := stored (addEntry (fun es => es) (makeEntry "doc-1" "First" 1000)
                                           (history_of [makeEntry "doc-2" "Second" 2000])) |})
  = entries (addEntry (fun es => es) (makeEntry "doc-1" "First" 1000)
                      (history_of [makeEntry "doc-2" "Second" 2000])).
Proof.
  apply (restoreHistory_brings_the_history_back
           (list HistoryEntry) (fun es => es) (fun raw => Some raw)
           (fun es => eq_refl)
           (makeEntry "doc-1" "First" 1000) "doc-2"
           (history_of [makeEntry "doc-2" "Second" 2000])).
  - reflexivity.
  - reflexivity.
  - reflexivity.
Defined.

(* ===================================================================== *)
(** ** The sign-in session *)
(* ===================================================================== *)

Section AuthFacts.

Variable AuthStored : Type.
Variable stringify_auth : StoredAuth -> AuthStored.
Variable parse_auth : AuthStored -> option StoredAuth.

(** X29.  After [setAuth] at time [now] the session is signed in with the
    token given, and [isTokenExpired] at a time [t] is false exactly while
    60 seconds or more remain of the lifetime, which is 3600 seconds when
    no number of seconds or zero is given.  So the token is expired from
    the start exactly when a lifetime other than zero and below 60 seconds
    is given. *)
Theorem setAuth_token_lifetime :
  forall (token : string) (userInfo : User) (expiresInSeconds : option Z)
         (now t : Z) (st : AuthState AuthStored),
    let st' := setAuth stringify_auth token userInfo expiresInSeconds now st in
    getAccessToken st' = Some token
    /\ isAuthenticated st' = true
    /\ (isTokenExpired t st' = false
        <-> (t + 60000 <= now + lifetime_seconds expiresInSeconds * 1000)%Z)
    /\ (isTokenExpired now st' = true
        <-> exists n, expiresInSeconds = Some n /\ n <> 0%Z /\ (n < 60)%Z).
Proof.
  intros token userInfo expiresInSeconds now t st st'.
  split; [reflexivity |]. split; [reflexivity |]. split.
  - unfold isTokenExpired, st'. cbn [setAuth expiresAt].
    rewrite Z.ltb_ge. reflexivity.
  - unfold isTokenExpired, st'. cbn [setAuth expiresAt].
    rewrite Z.ltb_lt. unfold lifetime_seconds.
    destruct expiresInSeconds as [n |].
    + destruct (Z.eqb_spec n 0) as [-> | Hn].
      * split; [lia |]. intros [m [Hm [Hm0 _]]]. injection Hm as <-. now elim Hm0.
      * split.
        -- intros H. exists n. split; [reflexivity | split; [assumption | lia]].
        -- intros [m [Hm [_ Hm60]]]. injection Hm as <-. lia.
    + split; [lia |]. intros [m [Hm _]]. discriminate.
Qed.

Hypothesis parse_stringify_auth : forall saved, parse_auth (stringify_auth saved) = Some saved.

(** X30.  With [JSON.parse] undoing [JSON.stringify] and the storage
    working, a session that starts from the item [setAuth] stored and calls
    [restoreAuth] at a time [t] is signed in again with the same token,
    user and expiry when 60 seconds or more remain of the lifetime; when
    less remains, [restoreAuth] answers false, removes the stored item and
    leaves the token, the user, the signed-in flag and the expiry of the
    session as they were. *)
Theorem restoreAuth_brings_the_session_back :
  forall (token : string) (userInfo : User) (expiresInSeconds : option Z)
         (now t : Z) (st fresh : AuthState AuthStored),
    auth_storage_available st = true ->
    auth_storage_available fresh = true ->
    auth_stored fresh
    = auth_stored (setAuth stringify_auth token userInfo expiresInSeconds now st) ->
    let expires := (now + lifetime_seconds expiresInSeconds * 1000)%Z in
    ((t + 60000 <= expires)%Z ->
     fst (restoreAuth parse_auth t fresh) = true
     /\ getAccessToken (snd (restoreAuth parse_auth t fresh)) = Some token
     /\ user (snd (restoreAuth parse_auth t fresh)) = Some userInfo
     /\ isAuthenticated (snd (restoreAuth parse_auth t fresh)) = true
     /\ expiresAt (snd (restoreAuth parse_auth t fresh)) = expires)
    /\ ((expires < t + 60000)%Z ->
        fst (restoreAuth parse_auth t fresh) = false
        /\ auth_stored (snd (restoreAuth parse_auth t fresh)) = None
        /\ getAccessToken (snd (restoreAuth parse_auth t fresh)) = getAccessToken fresh
        /\ isAuthenticated (snd (restoreAuth parse_auth t fresh)) = isAuthenticated fresh
        /\ user (snd (restoreAuth parse_auth t fresh)) = user fresh
        /\ expiresAt (snd (restoreAuth parse_auth t fresh)) = expiresAt fresh).
Proof.
  intros token userInfo expiresInSeconds now t st fresh Hst Hfresh Hstored expires.
  unfold restoreAuth. rewrite Hfresh, Hstored.
  cbn [setAuth auth_stored]. rewrite Hst, parse_stringify_auth.
  cbn [sa_expiresAt sa_user sa_accessToken]. fold expires.
  split; intros Hrange.
  - replace (expires <? t + 60000)%Z with false by (symmetry; apply Z.ltb_ge; lia).
    repeat split.
  - replace (expires <? t + 60000)%Z with true by (symmetry; apply Z.ltb_lt; lia).
    repeat split.
Qed.

End AuthFacts.

Lemma restoreAuth_brings_the_session_back_witness :
  fst (restoreAuth (fun raw => Some raw) 1000000
         {| isAuthenticated := false; user := None; accessToken := None; expiresAt := 0;
            auth_storage_available := true;
            auth_stored :=
              auth_stored (setAuth (fun saved => saved) "token-1" alice None 0 signed_out) |})
  = true.
Proof.
  apply (restoreAuth_brings_the_session_back
           StoredAuth (fun saved => saved) (fun raw => Some raw) (fun saved => eq_refl)
           "token-1" alice None 0 1000000 signed_out).
  - reflexivity.
  - reflexivity.
  - reflexivity.
  - unfold lifetime_seconds. lia.
Defined.

Lemma setAuth_token_lifetime_witness :
  isTokenExpired 0 (setAuth (fun saved => saved) "token-1" alice (Some 30%Z) 0 signed_out)
  = true.
Proof.
  apply (setAuth_token_lifetime StoredAuth (fun saved => saved)
           "token-1" alice (Some 30%Z) 0 0 signed_out).
  exists 30%Z. split; [reflexivity | split; [discriminate | lia]].
Defined.
